(** * Verification of the trending-video ingestion script

    A shallow embedding of [downloading_script.py]: the three helper
    functions ([_to_iso], [_extract_hashtags], [_popular_sound_heuristic]),
    the secondary lookup [_fetch_music_usage_count] and the ingestion loop
    [trending_videos], followed by the properties the specification states
    about them.

    Conventions of the embedding:
    - Python values whose dynamic type the script inspects ([isinstance],
      [is False], truthiness, [int(...)]) are values of [pyval]; fields the
      script only copies or treats as text are typed.
    - A Python exception is a value of [exn]; code that can raise lives in
      the error monad [result]; [try ... except Exception] is [try_catch].
    - Text is [string] (a sequence of bytes): [str.lower], [str.split] and
      [int(str)] are modelled on ASCII.
    - Durations are rationals; the rounding of binary floating point is not
      modelled.
    - The Content Source is a script of answers: every call the loop makes
      to it (page iteration, detail fetch, secondary lookups, media bytes,
      session creation) and every random draw reads its answer from the
      script. *)

From Stdlib Require Import ZArith QArith Qminmax Lqa String Ascii DecimalString Lia.
From stdpp Require Import gmap strings list.

Set Warnings "-register-all".

Open Scope Z_scope.
Open Scope string_scope.

(** ** Python values and exceptions *)

Inductive pyval : Type :=
| PNone
| PBool (b : bool)
| PInt (n : Z)
| PStr (s : string)
| PList (l : list pyval)
| PDict (d : list (string * pyval)).

Inductive exn : Type :=
| AttributeError (msg : string)
| TypeError (msg : string)
| ValueError (msg : string)
| OverflowError (msg : string)
| RuntimeError (msg : string)
| SourceError (msg : string).   (* raised by the Content Source client *)

(** [str(e)] of an exception: its message. *)
Definition exn_msg (e : exn) : string :=
  match e with
  | AttributeError m | TypeError m | ValueError m
  | OverflowError m | RuntimeError m | SourceError m => m
  end.

Inductive result (A : Type) : Type :=
| Ok (a : A)
| Raise (e : exn).
Arguments Ok {A} a.
Arguments Raise {A} e.

(** Sequencing: the first exception raised ends the computation. It is
    written [x ← m; k] below. *)
#[export] Instance result_bind : MBind result := fun A B k m =>
  match m with
  | Ok a => k a
  | Raise e => Raise e
  end.

(** [try: m; except Exception as e: h e]. *)
Definition try_catch {A : Type} (m : result A) (h : exn -> A) : A :=
  match m with
  | Ok a => a
  | Raise e => h e
  end.

Definition truthy (v : pyval) : bool :=
  match v with
  | PNone => false
  | PBool b => b
  | PInt n => negb (n =? 0)%Z
  | PStr s => negb (String.eqb s "")
  | PList l => match l with [] => false | _ => true end
  | PDict d => match d with [] => false | _ => true end
  end.

(** [a or b]. *)
Definition py_or (a b : pyval) : pyval := if truthy a then a else b.

Definition type_name (v : pyval) : string :=
  match v with
  | PNone => "NoneType"
  | PBool _ => "bool"
  | PInt _ => "int"
  | PStr _ => "str"
  | PList _ => "list"
  | PDict _ => "dict"
  end.

Fixpoint assoc (k : string) (d : list (string * pyval)) : option pyval :=
  match d with
  | [] => None
  | (k', v) :: d' => if String.eqb k k' then Some v else assoc k d'
  end.

(** [v.get(k)]: [None] for a missing key, [AttributeError] when [v] is not a
    dictionary. *)
Definition py_get (v : pyval) (k : string) : result pyval :=
  match v with
  | PDict d => Ok (default PNone (assoc k d))
  | _ => Raise (AttributeError
                  ("'" ++ type_name v ++ "' object has no attribute 'get'"))
  end.

(** [isinstance(v, int)], with the integer it denotes: [bool] is a subclass
    of [int] in Python. *)
Definition as_int (v : pyval) : option Z :=
  match v with
  | PInt n => Some n
  | PBool b => Some (if b then 1 else 0)
  | _ => None
  end.

Definition isinstance_int (v : pyval) : bool :=
  match as_int v with Some _ => true | None => false end.

Definition str_of_Z (n : Z) : string := NilZero.string_of_int (Z.to_int n).

(** [f"{v}"] for the values the script formats. *)
Definition format_int (v : pyval) : string :=
  match v with
  | PBool true => "True"
  | PBool false => "False"
  | PInt n => str_of_Z n
  | _ => ""
  end.

(** ** Text helpers *)

Definition is_space (c : ascii) : bool :=
  let n := nat_of_ascii c in
  ((9 <=? n) && (n <=? 13) || (28 <=? n) && (n <=? 32))%nat.

Definition lower_char (c : ascii) : ascii :=
  let n := nat_of_ascii c in
  if ((65 <=? n) && (n <=? 90))%nat then ascii_of_nat (n + 32) else c.

(** [s.lower()] *)
Fixpoint lower (s : string) : string :=
  match s with
  | EmptyString => EmptyString
  | String c s' => String (lower_char c) (lower s')
  end.

(** [s.split()]: the maximal runs of non-whitespace characters. *)
Fixpoint split (s : string) : list string :=
  match s with
  | EmptyString => []
  | String c s' =>
      if is_space c then split s'
      else match s' with
           | EmptyString => [String c EmptyString]
           | String c' _ =>
               if is_space c' then String c EmptyString :: split s'
               else match split s' with
                    | w :: ws => String c w :: ws
                    | [] => [String c EmptyString]
                    end
           end
  end.

(** [w.startswith("#")] *)
Definition startswith_hash (w : string) : bool :=
  match w with
  | String c _ => Ascii.eqb c "#"
  | EmptyString => false
  end.

(** [sep.join(l)] *)
Fixpoint join (sep : string) (l : list string) : string :=
  match l with
  | [] => ""
  | [x] => x
  | x :: l' => x ++ sep ++ join sep l'
  end.

(** ** Configuration (the module-level constants read from the environment) *)

Record config : Type := {
  COUNT : Z;
  PAGE_SIZE : Z;
  MAX_LOOPS : Z;
  MAX_CONSECUTIVE_ERRORS : Z;
  BACKOFF_BASE_SEC : Q;
  BACKOFF_MAX_SEC : Q;
  JITTER_SEC : Q;
  RESET_SESSION_AFTER_ERRORS : Z;
  POPULAR_SOUND_MIN_USES : Z;
  DOWNLOAD_DIR : string
}.

(** The defaults of the script. *)
Definition default_config : config := {|
  COUNT := 1000;
  PAGE_SIZE := 20;
  MAX_LOOPS := 999999;
  MAX_CONSECUTIVE_ERRORS := 6;
  BACKOFF_BASE_SEC := 2;
  BACKOFF_MAX_SEC := 30;
  JITTER_SEC := 8 # 10;
  RESET_SESSION_AFTER_ERRORS := 3;
  POPULAR_SOUND_MIN_USES := 1000;
  DOWNLOAD_DIR := "downloads"
|}.

(** ** [_extract_hashtags] *)

(** One entry of [data["textExtra"]]; [hashtagName] is absent, empty or a
    tag name. *)
Record text_extra : Type := { hashtagName : option string }.

(** The fields of an item's detail record that the script reads. *)
Record video_data : Type := {
  textExtra : option (list text_extra);
  desc : option string;
  createTime : pyval;
  music : pyval
}.

(** The first loop: [tags.append(f"#{name}")] for every entry with a
    non-empty name. *)
Fixpoint structured_tags (l : list text_extra) : list string :=
  match l with
  | [] => []
  | item :: l' =>
      match hashtagName item with
      | Some name =>
          if negb (String.eqb name "") then ("#" ++ name) :: structured_tags l'
          else structured_tags l'
      | None => structured_tags l'
      end
  end.

(** [[w for w in desc.split() if w.startswith("#")]] *)
Definition caption_tags (d : string) : list string :=
  List.filter startswith_hash (split d).

(** The last loop, with its two accumulators [seen] and [uniq]. The function
    returns what the loop appends to [uniq] from [tags] on. *)
Fixpoint uniq_loop (seen : gset string) (tags : list string) : list string :=
  match tags with
  | [] => []
  | t :: tags' =>
      let tl := lower t in
      if bool_decide (tl ∈ seen) then uniq_loop seen tags'
      else t :: uniq_loop ({[tl]} ∪ seen) tags'
  end.

Definition _extract_hashtags (data : video_data) : list string :=
  let tags := structured_tags (default [] (textExtra data)) in
  let tags :=
    match tags with
    | [] => caption_tags (default "" (desc data))
    | _ => tags
    end in
  uniq_loop ∅ tags.

(** ** [_popular_sound_heuristic] *)

Definition is_False (v : pyval) : bool :=
  match v with PBool false => true | _ => false end.

(** The body of the [try]. *)
Definition popular_sound_body (min_uses : Z) (music_obj music_uses_count : pyval)
  : result (bool * string) :=
  original ← py_get (py_or music_obj (PDict [])) "original";
  let popular :=
    is_False original
    || match as_int music_uses_count with
       | Some n => (min_uses <=? n)%Z
       | None => false
       end in
  let reasons := if is_False original then ["non_original_sound"] else [] in
  let reasons :=
    if isinstance_int music_uses_count
    then (reasons ++ [("videoCount=" ++ format_int music_uses_count)%string])%list
    else reasons in
  Ok (popular, match reasons with [] => "no_reason" | _ => join "|" reasons end).

Definition _popular_sound_heuristic (cfg : config) (music_obj music_uses_count : pyval)
  : bool * string :=
  try_catch (popular_sound_body (POPULAR_SOUND_MIN_USES cfg) music_obj music_uses_count)
            (fun e => (false, "error:" ++ exn_msg e)).

(** ** [_to_iso] *)

Definition digit_val (c : ascii) : option Z :=
  let n := nat_of_ascii c in
  if ((48 <=? n) && (n <=? 57))%nat then Some (Z.of_nat n - 48) else None.

Fixpoint lstrip (s : string) : string :=
  match s with
  | EmptyString => EmptyString
  | String c s' => if is_space c then lstrip s' else s
  end.

Fixpoint rstrip (s : string) : string :=
  match s with
  | EmptyString => EmptyString
  | String c s' =>
      match rstrip s' with
      | EmptyString => if is_space c then EmptyString else String c EmptyString
      | r => String c r
      end
  end.

(** Decimal digits, where single underscores may separate digits. *)
Fixpoint parse_digits (acc : Z) (after_digit : bool) (s : string) : option Z :=
  match s with
  | EmptyString => if after_digit then Some acc else None
  | String c s' =>
      match digit_val c with
      | Some d => parse_digits (10 * acc + d) true s'
      | None =>
          if Ascii.eqb c "_" && after_digit then parse_digits acc false s'
          else None
      end
  end.

(** [int(s)] for a string, base 10: surrounding whitespace, an optional
    sign, digits. *)
Definition int_of_str (s : string) : option Z :=
  match lstrip (rstrip s) with
  | String "-" s' => Z.opp <$> parse_digits 0 false s'
  | String "+" s' => parse_digits 0 false s'
  | s' => parse_digits 0 false s'
  end.

(** [int(v)] *)
Definition py_int (v : pyval) : result Z :=
  match v with
  | PInt n => Ok n
  | PBool b => Ok (if b then 1 else 0)
  | PStr s =>
      match int_of_str s with
      | Some n => Ok n
      | None => Raise (ValueError "invalid literal for int() with base 10")
      end
  | _ => Raise (TypeError
                  ("int() argument must be a string, a bytes-like object or a real number, not '"
                   ++ type_name v ++ "'"))
  end.

(** The proleptic Gregorian calendar of [datetime]: the ordinal of a day
    (1 = 0001-01-01) to year, month and day, as [datetime._ord2ymd]. *)
Definition DI400Y : Z := 146097.
Definition DI100Y : Z := 36524.
Definition DI4Y : Z := 1461.

Definition days_before_month (m : Z) : Z :=
  nth (Z.to_nat m) [-1; 0; 31; 59; 90; 120; 151; 181; 212; 243; 273; 304; 334] 0.

Definition days_in_month (m : Z) : Z :=
  nth (Z.to_nat m) [-1; 31; 28; 31; 30; 31; 30; 31; 31; 30; 31; 30; 31] 0.

Definition Z_of_bool (b : bool) : Z := if b then 1 else 0.

Definition ord2ymd (ordinal : Z) : Z * Z * Z :=
  let n := ordinal - 1 in
  let n400 := n / DI400Y in
  let n := n mod DI400Y in
  let year := n400 * 400 + 1 in
  let n100 := n / DI100Y in
  let n := n mod DI100Y in
  let n4 := n / DI4Y in
  let n := n mod DI4Y in
  let n1 := n / 365 in
  let n := n mod 365 in
  let year := year + n100 * 100 + n4 * 4 + n1 in
  if (n1 =? 4)%Z || (n100 =? 4)%Z then (year - 1, 12, 31)
  else
    let leapyear := (n1 =? 3)%Z && (negb (n4 =? 24)%Z || (n100 =? 3)%Z) in
    let month := Z.shiftr (n + 50) 5 in
    let preceding :=
      days_before_month month + Z_of_bool ((2 <? month)%Z && leapyear) in
    if (n <? preceding)%Z then
      let month := month - 1 in
      let preceding :=
        preceding - (days_in_month month
                     + Z_of_bool ((month =? 2)%Z && leapyear)) in
      (year, month, n - preceding + 1)
    else (year, month, n - preceding + 1).

(** The ordinal of 1970-01-01. *)
Definition EPOCH_ORDINAL : Z := 719163.

Definition digit_char (d : Z) : ascii := ascii_of_nat (48 + Z.to_nat (d mod 10)).

(** [%02d] and [%04d] *)
Definition fmt2 (n : Z) : string :=
  String (digit_char (n / 10)) (String (digit_char n) EmptyString).
Definition fmt4 (n : Z) : string := fmt2 (n / 100) ++ fmt2 n.

(** First and last second of the years 1 to 9999, outside of which
    [datetime.fromtimestamp] raises. *)
Definition MIN_TIMESTAMP : Z := -62135596800.
Definition MAX_TIMESTAMP : Z := 253402300799.

(** [datetime.fromtimestamp(n, tz=timezone.utc).isoformat()] *)
Definition isoformat_utc (n : Z) : result string :=
  if (n <? MIN_TIMESTAMP)%Z || (MAX_TIMESTAMP <? n)%Z
  then Raise (ValueError "year is out of range")
  else
    let days := n / 86400 in
    let secs := n mod 86400 in
    let '(y, m, d) := ord2ymd (days + EPOCH_ORDINAL) in
    Ok (fmt4 y ++ "-" ++ fmt2 m ++ "-" ++ fmt2 d ++ "T"
        ++ fmt2 (secs / 3600) ++ ":" ++ fmt2 (secs mod 3600 / 60) ++ ":"
        ++ fmt2 (secs mod 60) ++ "+00:00").

(** The body of the [try]. *)
Definition to_iso_body (ts : pyval) : result string :=
  n ← py_int ts; isoformat_utc n.

Definition _to_iso (ts : pyval) : option string :=
  try_catch (s ← to_iso_body ts; Ok (Some s)) (fun _ => None).

(** ** The Content Source as a script of answers *)

(** One item yielded by [api.trending.videos], with the answer of every call
    the loop makes while it handles the item. *)
Record video : Type := {
  listing_id : option string;        (* video.as_dict.get("id") *)
  author_uniqueId : option string;   (* (data.get("author") or {}).get("uniqueId") *)
  info : result video_data;          (* await t.info(); t.as_dict *)
  music_info : result pyval;         (* m = api.music(id=...); await m.info(); m.as_dict *)
  sound_info : result pyval;         (* s = api.sound(id=...); await s.info(); s.as_dict *)
  media : result string;             (* await t.bytes(), stored in the mp4 file *)
  item_pause_draw : Q;               (* random.random() of the pause after a save *)
  item_reset : result unit           (* _new_session(api) in the item handler *)
}.

(** One call of [api.trending.videos(count=...)]: the items the generator
    yields, how it ends (exhausted, or an exception after the last item),
    and the answers used after the [async for]. *)
Record page : Type := {
  items : list video;
  page_end : result unit;
  page_pause_draw : Q;               (* random.random() of the pause between pages *)
  backoff_draw : Q;                  (* random.random() of the backoff jitter *)
  page_reset : result unit           (* _new_session(api) in the page handler *)
}.

Record source : Type := {
  first_session : result unit;       (* _new_session(api) before the loop *)
  pages : Z -> page                  (* the page served at loop number [loops] *)
}.

(** ** Outputs and run state *)

Record row : Type := {
  video_id : string;
  watch_url : option string;
  username : option string;
  create_time_iso : option string;
  hashtags : list string;
  uses_popular_sound : bool;
  music_uses_count : pyval;
  popular_sound_reason : string;
  caption : string;
  download_path : string
}.

(** What the run does to the outside, in order: console lines, sleeps and
    session creations. *)
Inductive event : Type :=
| EvPage (loop_no need requesting : Z)
| EvSaved (n target : Z)
| EvDownloadFailed (id msg : string)
| EvItemError (msg : string)
| EvItemRestart
| EvPageError (msg : string) (sleep_for : Q)
| EvPageRecreate
| EvNewSession
| EvSleep (seconds : Q)
| EvDone (n target : Z).

Record state : Type := {
  downloaded_count : Z;
  seen_ids : gset string;
  consecutive_errors : Z;
  loops : Z;
  music_usage_cache : list (pyval * pyval);
  csv_rows : list row;               (* rows appended to the CSV file *)
  jsonl_rows : list row;             (* lines appended to the JSONL file *)
  files : list (string * string);    (* mp4 files written: path and bytes *)
  trace : list event
}.

Definition initial_state : state := {|
  downloaded_count := 0;
  seen_ids := ∅;
  consecutive_errors := 0;
  loops := 0;
  music_usage_cache := [];
  csv_rows := [];
  jsonl_rows := [];
  files := [];
  trace := []
|}.

Definition set_downloaded_count (n : Z) (st : state) : state :=
  {| downloaded_count := n; seen_ids := seen_ids st;
     consecutive_errors := consecutive_errors st; loops := loops st;
     music_usage_cache := music_usage_cache st; csv_rows := csv_rows st;
     jsonl_rows := jsonl_rows st; files := files st; trace := trace st |}.

Definition set_seen_ids (s : gset string) (st : state) : state :=
  {| downloaded_count := downloaded_count st; seen_ids := s;
     consecutive_errors := consecutive_errors st; loops := loops st;
     music_usage_cache := music_usage_cache st; csv_rows := csv_rows st;
     jsonl_rows := jsonl_rows st; files := files st; trace := trace st |}.

Definition set_consecutive_errors (n : Z) (st : state) : state :=
  {| downloaded_count := downloaded_count st; seen_ids := seen_ids st;
     consecutive_errors := n; loops := loops st;
     music_usage_cache := music_usage_cache st; csv_rows := csv_rows st;
     jsonl_rows := jsonl_rows st; files := files st; trace := trace st |}.

Definition set_loops (n : Z) (st : state) : state :=
  {| downloaded_count := downloaded_count st; seen_ids := seen_ids st;
     consecutive_errors := consecutive_errors st; loops := n;
     music_usage_cache := music_usage_cache st; csv_rows := csv_rows st;
     jsonl_rows := jsonl_rows st; files := files st; trace := trace st |}.

Definition set_music_usage_cache (c : list (pyval * pyval)) (st : state) : state :=
  {| downloaded_count := downloaded_count st; seen_ids := seen_ids st;
     consecutive_errors := consecutive_errors st; loops := loops st;
     music_usage_cache := c; csv_rows := csv_rows st;
     jsonl_rows := jsonl_rows st; files := files st; trace := trace st |}.

(** [csv_writer.writerow(...)] then [jsonl_file.write(...)], each flushed. *)
Definition append_record (r : row) (st : state) : state :=
  {| downloaded_count := downloaded_count st; seen_ids := seen_ids st;
     consecutive_errors := consecutive_errors st; loops := loops st;
     music_usage_cache := music_usage_cache st;
     csv_rows := (csv_rows st ++ [r])%list;
     jsonl_rows := (jsonl_rows st ++ [r])%list;
     files := files st; trace := trace st |}.

Definition write_file (path bytes : string) (st : state) : state :=
  {| downloaded_count := downloaded_count st; seen_ids := seen_ids st;
     consecutive_errors := consecutive_errors st; loops := loops st;
     music_usage_cache := music_usage_cache st; csv_rows := csv_rows st;
     jsonl_rows := jsonl_rows st;
     files := (files st ++ [(path, bytes)])%list; trace := trace st |}.

Definition emit (e : event) (st : state) : state :=
  {| downloaded_count := downloaded_count st; seen_ids := seen_ids st;
     consecutive_errors := consecutive_errors st; loops := loops st;
     music_usage_cache := music_usage_cache st; csv_rows := csv_rows st;
     jsonl_rows := jsonl_rows st; files := files st;
     trace := (trace st ++ [e])%list |}.

(** ** Stateful code that may raise *)

Definition M (A : Type) : Type := state -> state * result A.

#[export] Instance M_ret : MRet M := fun A a st => (st, Ok a).

#[export] Instance M_bind : MBind M := fun A B k m st =>
  match m st with
  | (st', Ok a) => k a st'
  | (st', Raise e) => (st', Raise e)
  end.

Definition get : M state := fun st => (st, Ok st).
Definition modify (f : state -> state) : M unit := fun st => (f st, Ok tt).
Definition raise {A : Type} (e : exn) : M A := fun st => (st, Raise e).
Definition lift {A : Type} (r : result A) : M A := fun st => (st, r).

(** [try: m; except Exception as e: h e]: the state changes made by [m]
    before it raised are kept. *)
Definition try_except {A : Type} (m : M A) (h : exn -> M A) : M A := fun st =>
  match m st with
  | (st', Ok a) => (st', Ok a)
  | (st', Raise e) => h e st'
  end.

(** [random.uniform(a, b)], from the draw [u] of [random.random()]. *)
Definition uniform (a b u : Q) : Q := (a + (b - a) * u)%Q.

(** [await asyncio.sleep(seconds)] *)
Definition sleep (seconds : Q) : M unit := modify (emit (EvSleep seconds)).

(** [await _new_session(api)], with the answer of [api.create_sessions]. *)
Definition _new_session (answer : result unit) : M unit :=
  modify (emit EvNewSession);; lift answer.

(** ** [_fetch_music_usage_count] *)

(** [music_obj.get("id") or music_obj.get("musicId") or music_obj.get("idStr")] *)
Definition music_id_of (music_obj : pyval) : result pyval :=
  a ← py_get music_obj "id";
  if truthy a then Ok a
  else
    b ← py_get music_obj "musicId";
    if truthy b then Ok b else py_get music_obj "idStr".

(** The [videoCount] of an entity record: under ["stats"] first, at top
    level otherwise. *)
Definition video_count_of (md : pyval) : result pyval :=
  st ← py_get md "stats";
  let stats := py_or st (PDict []) in
  vc ← match stats with
       | PDict _ => py_get stats "videoCount"
       | _ => Ok PNone
       end;
  match vc with
  | PNone => py_get md "videoCount"
  | _ => Ok vc
  end.

(** One of the two [try] blocks: [Some vc] when it returns [vc], [None] when
    control falls through it, an exception being passed over. *)
Definition lookup_try (answer : result pyval) : option pyval :=
  try_catch (md ← answer;
             vc ← video_count_of md;
             Ok (if isinstance_int vc then Some vc else None))
            (fun _ => None).

Definition _fetch_music_usage_count (music_answer sound_answer : result pyval)
    (music_obj : pyval) : result pyval :=
  if negb (truthy music_obj) then Ok PNone
  else
    music_id ← music_id_of music_obj;
    if negb (truthy music_id) then Ok PNone
    else
      match lookup_try music_answer with
      | Some vc => Ok vc
      | None =>
          match lookup_try sound_answer with
          | Some vc => Ok vc
          | None => Ok PNone
          end
      end.

(** ** The dictionary [music_usage_cache] *)

Definition hashable (v : pyval) : bool :=
  match v with
  | PList _ | PDict _ => false
  | _ => true
  end.

(** Equality of dictionary keys: [True == 1] and [False == 0]. *)
Definition key_eqb (a b : pyval) : bool :=
  match a, b with
  | PNone, PNone => true
  | PStr s, PStr t => String.eqb s t
  | _, _ =>
      match as_int a, as_int b with
      | Some m, Some n => (m =? n)%Z
      | _, _ => false
      end
  end.

Fixpoint cache_lookup (k : pyval) (c : list (pyval * pyval)) : option pyval :=
  match c with
  | [] => None
  | (k', v) :: c' => if key_eqb k k' then Some v else cache_lookup k c'
  end.

(** The cache test and its two branches. *)
Definition cached_music_uses_count (v : video) (music_obj music_id : pyval)
  : M pyval :=
  if negb (hashable music_id)
  then raise (TypeError ("unhashable type: '" ++ type_name music_id ++ "'"))
  else
    st ← get;
    match cache_lookup music_id (music_usage_cache st) with
    | Some c => mret c
    | None =>
        c ← lift (_fetch_music_usage_count (music_info v) (sound_info v) music_obj);
        modify (set_music_usage_cache ((music_id, c) :: music_usage_cache st));;
        mret c
    end.

(** ** [trending_videos] *)

Fixpoint ends_with_slash (s : string) : bool :=
  match s with
  | EmptyString => false
  | String c EmptyString => Ascii.eqb c "/"
  | String _ s' => ends_with_slash s'
  end.

(** [os.path.join(a, b)] on POSIX. *)
Definition path_join (a b : string) : string :=
  match b with
  | String "/" _ => b
  | _ => if String.eqb a "" || ends_with_slash a then a ++ b else a ++ "/" ++ b
  end.

Definition watch_url_of (username : option string) (video_id : string)
  : option string :=
  match username with
  | Some u =>
      if negb (String.eqb u "")
      then Some ("https://www.tiktok.com/@" ++ u ++ "/video/" ++ video_id)
      else None
  | None => None
  end.

(** [2 ** e] *)
Definition pow2 (e : Z) : Q :=
  if (e <? 0)%Z then (/ inject_Z (2 ^ (- e)))%Q else inject_Z (2 ^ e).

(** The backoff of the page handler, before the jitter. *)
Definition backoff_expo (cfg : config) (errors : Z) : Q :=
  Qmin (BACKOFF_MAX_SEC cfg) (BACKOFF_BASE_SEC cfg * pow2 (Z.min errors 6))%Q.

(** The body of the inner [try], for one item; returning is [continue] or
    the end of the body. *)
Definition item_body (cfg : config) (v : video) : M unit :=
  match listing_id v with
  | None => mret tt
  | Some video_id =>
      st ← get;
      if String.eqb video_id "" || bool_decide (video_id ∈ seen_ids st)
      then mret tt
      else
        modify (set_seen_ids ({[video_id]} ∪ seen_ids st));;
        let username := author_uniqueId v in
        let watch_url := watch_url_of username video_id in
        data ← lift (info v);
        let create_time_iso := _to_iso (createTime data) in
        let caption := default "" (desc data) in
        let hashtags := _extract_hashtags data in
        let music_obj := py_or (music data) (PDict []) in
        music_id ← lift (music_id_of music_obj);
        music_uses_count ← cached_music_uses_count v music_obj music_id;
        let '(uses_popular_sound, reason) :=
          _popular_sound_heuristic cfg music_obj music_uses_count in
        match media v with
        | Raise e => modify (emit (EvDownloadFailed video_id (exn_msg e)))
        | Ok video_bytes =>
            let out_path := path_join (DOWNLOAD_DIR cfg) (video_id ++ ".mp4") in
            modify (write_file out_path video_bytes);;
            modify (append_record
                      {| video_id := video_id; watch_url := watch_url;
                         username := username;
                         create_time_iso := create_time_iso;
                         hashtags := hashtags;
                         uses_popular_sound := uses_popular_sound;
                         music_uses_count := music_uses_count;
                         popular_sound_reason := reason;
                         caption := caption;
                         download_path := out_path |});;
            st ← get;
            modify (set_downloaded_count (downloaded_count st + 1));;
            modify (set_consecutive_errors 0);;
            modify (emit (EvSaved (downloaded_count st + 1) (COUNT cfg)));;
            sleep (uniform (3 # 10) (9 # 10) (item_pause_draw v))
        end
  end.

(** The inner [except Exception as e]. *)
Definition item_handler (cfg : config) (v : video) (e : exn) : M unit :=
  modify (emit (EvItemError (exn_msg e)));;
  st ← get;
  let errors := consecutive_errors st + 1 in
  modify (set_consecutive_errors errors);;
  if (RESET_SESSION_AFTER_ERRORS cfg <=? errors)%Z
  then
    modify (emit EvItemRestart);;
    _new_session (item_reset v);;
    modify (set_consecutive_errors 0)
  else mret tt.

Definition process_item (cfg : config) (v : video) : M unit :=
  try_except (item_body cfg v) (item_handler cfg v).

(** [async for video in api.trending.videos(...)]: returns [got_any]. The
    generator is asked for the next item only when the loop has not left by
    [break]. *)
Fixpoint async_for (cfg : config) (got_any : bool) (vs : list video)
    (finish : result unit) : M bool :=
  match vs with
  | [] => lift finish;; mret got_any
  | v :: vs' =>
      st ← get;
      if (COUNT cfg <=? downloaded_count st)%Z then mret true
      else process_item cfg v;; async_for cfg true vs' finish
  end.

(** The body of the outer [try]. *)
Definition page_body (cfg : config) (p : page) : M unit :=
  got_any ← async_for cfg false (items p) (page_end p);
  (if negb got_any
   then raise (RuntimeError "Empty page (likely 10201/throttle)")
   else mret tt);;
  sleep (uniform (12 # 10) (25 # 10) (page_pause_draw p)).

(** The outer [except Exception as e]. *)
Definition page_handler (cfg : config) (p : page) (e : exn) : M unit :=
  st ← get;
  let errors := consecutive_errors st + 1 in
  modify (set_consecutive_errors errors);;
  let expo := backoff_expo cfg errors in
  let sleep_for := (expo + uniform 0 (JITTER_SEC cfg) (backoff_draw p))%Q in
  modify (emit (EvPageError (exn_msg e) sleep_for));;
  sleep sleep_for;;
  if (RESET_SESSION_AFTER_ERRORS cfg <=? errors)%Z
  then
    modify (emit EvPageRecreate);;
    _new_session (page_reset p);;
    modify (set_consecutive_errors 0)
  else mret tt.

(** One turn of the [while] loop. *)
Definition page_iteration (cfg : config) (src : source) : M unit :=
  st ← get;
  let loop_no := loops st + 1 in
  modify (set_loops loop_no);;
  let need := COUNT cfg - downloaded_count st in
  let page_target := Z.min (PAGE_SIZE cfg) need in
  modify (emit (EvPage loop_no need page_target));;
  let p := pages src loop_no in
  try_except (page_body cfg p) (page_handler cfg p).

Definition loop_condition (cfg : config) (st : state) : bool :=
  (downloaded_count st <? COUNT cfg)%Z && (loops st <? MAX_LOOPS cfg)%Z.

(** The [while] loop. It runs at most [MAX_LOOPS] times, which is the fuel
    [trending_videos] gives it; [while_loop_exit] below shows that the fuel
    is never what ends it. *)
Fixpoint while_loop (cfg : config) (src : source) (fuel : nat) : M unit :=
  st ← get;
  if loop_condition cfg st then
    match fuel with
    | O => mret tt
    | S fuel' => page_iteration cfg src;; while_loop cfg src fuel'
    end
  else mret tt.

Definition trending_videos_body (cfg : config) (src : source) : M unit :=
  _new_session (first_session src);;
  while_loop cfg src (Z.to_nat (MAX_LOOPS cfg));;
  st ← get;
  modify (emit (EvDone (downloaded_count st) (COUNT cfg))).

(** A run: the final state and whether [asyncio.run] returned or raised. *)
Definition trending_videos (cfg : config) (src : source) : state * result unit :=
  trending_videos_body cfg src initial_state.

(** The exit status of the process. *)
Definition exit_status (r : result unit) : Z :=
  match r with
  | Ok _ => 0
  | Raise _ => 1
  end.

(** ** Vocabulary of the properties *)

(** The identifier under which an item is processed: present, non-empty and
    not yet in [seen_ids]. *)
Definition item_fresh (v : video) (st : state) : option string :=
  match listing_id v with
  | Some id =>
      if String.eqb id "" || bool_decide (id ∈ seen_ids st) then None
      else Some id
  | None => None
  end.

Definition mark_seen (id : string) (st : state) : state :=
  set_seen_ids ({[id]} ∪ seen_ids st) st.

(** The state after an item was saved as row [r] with media bytes [b], the
    cache having become [c]. *)
Definition after_save (cfg : config) (v : video) (r : row) (b : string)
    (c : list (pyval * pyval)) (st : state) : state :=
  emit (EvSleep (uniform (3 # 10) (9 # 10) (item_pause_draw v)))
    (emit (EvSaved (downloaded_count st + 1) (COUNT cfg))
       (set_consecutive_errors 0
          (set_downloaded_count (downloaded_count st + 1)
             (append_record r
                (write_file (download_path r) b
                   (set_music_usage_cache c (mark_seen (video_id r) st))))))).

(** The four ways the handling of one item ends. *)
Inductive item_outcome (cfg : config) (v : video) (st : state)
  : state -> result unit -> Prop :=
| item_skipped :
    item_fresh v st = None ->
    item_outcome cfg v st st (Ok tt)
| item_saved r b c :
    item_fresh v st = Some (video_id r) -> media v = Ok b ->
    item_outcome cfg v st (after_save cfg v r b c st) (Ok tt)
| item_download_failed id e c :
    item_fresh v st = Some id -> media v = Raise e ->
    item_outcome cfg v st
      (emit (EvDownloadFailed id (exn_msg e))
         (set_music_usage_cache c (mark_seen id st)))
      (Ok tt)
| item_failed id e :
    item_fresh v st = Some id ->
    item_outcome cfg v st
      (item_handler cfg v e (mark_seen id st)).1
      (item_handler cfg v e (mark_seen id st)).2.

(** What every part of the loop guarantees between the state it starts in
    and the state it leaves: identifiers are only added to [seen_ids]; the
    two outputs grow by the same rows; [downloaded_count] grows by the
    number of these rows; the rows have pairwise distinct identifiers, none
    of them seen before and all of them seen afterwards. *)
Record progress (st st' : state) : Prop := {
  progress_seen : seen_ids st ⊆ seen_ids st';
  progress_rows : exists new : list row,
      jsonl_rows st' = (jsonl_rows st ++ new)%list
      /\ csv_rows st' = (csv_rows st ++ new)%list
      /\ downloaded_count st' = downloaded_count st + Z.of_nat (length new)
      /\ NoDup (map video_id new)
      /\ forall r, r ∈ new ->
           (video_id r ∉ seen_ids st) /\ (video_id r ∈ seen_ids st');
  progress_loops : loops st <= loops st';
  progress_trace : (trace st) `prefix_of` (trace st')
}.

(** [downloaded_count] stays within the target. *)
Definition within_target (cfg : config) (st st' : state) : Prop :=
  downloaded_count st <= COUNT cfg -> downloaded_count st' <= COUNT cfg.

(** A relation between the state before and the state after holds for a
    piece of stateful code, whether it returns or raises. *)
Definition respects {A : Type} (R : state -> state -> Prop) (m : M A) : Prop :=
  forall st, R st (m st).1.

Definition loop_progress (cfg : config) (st st' : state) : Prop :=
  progress st st' /\ within_target cfg st st'.

(** The state in which the item handler leaves, before a session restart. *)
Definition item_error_counted (e : exn) (st : state) : state :=
  set_consecutive_errors (consecutive_errors st + 1)
    (emit (EvItemError (exn_msg e)) st).

(** ** Sample inputs *)

Definition sample_data : video_data :=
  {| textExtra := None; desc := None; createTime := PNone; music := PNone |}.

(** An item whose every call succeeds. *)
Definition sample_video (id : string) : video :=
  {| listing_id := Some id; author_uniqueId := Some "bob";
     info := Ok sample_data;
     music_info := Raise (SourceError "music");
     sound_info := Raise (SourceError "sound");
     media := Ok "bytes"; item_pause_draw := 0; item_reset := Ok tt |}.

(** An item whose detail fetch raises. *)
Definition detail_fails (id : string) : video :=
  {| listing_id := Some id; author_uniqueId := Some "bob";
     info := Raise (SourceError "detail");
     music_info := Raise (SourceError "music");
     sound_info := Raise (SourceError "sound");
     media := Ok "bytes"; item_pause_draw := 0; item_reset := Ok tt |}.

(** An item whose media fetch raises. *)
Definition media_fails (id : string) : video :=
  {| listing_id := Some id; author_uniqueId := Some "bob";
     info := Ok sample_data;
     music_info := Raise (SourceError "music");
     sound_info := Raise (SourceError "sound");
     media := Raise (SourceError "bytes"); item_pause_draw := 0;
     item_reset := Ok tt |}.

Definition sample_page (vs : list video) : page :=
  {| items := vs; page_end := Ok tt; page_pause_draw := 0; backoff_draw := 0;
     page_reset := Ok tt |}.

(** A source that serves the given pages in turn, then empty pages. *)
Definition serve (ps : list (list video)) : source :=
  {| first_session := Ok tt;
     pages := fun n => sample_page (nth (Z.to_nat (n - 1)) ps []) |}.

Definition with_target (count max_loops : Z) (cfg : config) : config :=
  {| COUNT := count; PAGE_SIZE := PAGE_SIZE cfg; MAX_LOOPS := max_loops;
     MAX_CONSECUTIVE_ERRORS := MAX_CONSECUTIVE_ERRORS cfg;
     BACKOFF_BASE_SEC := BACKOFF_BASE_SEC cfg;
     BACKOFF_MAX_SEC := BACKOFF_MAX_SEC cfg;
     JITTER_SEC := JITTER_SEC cfg;
     RESET_SESSION_AFTER_ERRORS := RESET_SESSION_AFTER_ERRORS cfg;
     POPULAR_SOUND_MIN_USES := POPULAR_SOUND_MIN_USES cfg;
     DOWNLOAD_DIR := DOWNLOAD_DIR cfg |}.

(** Target 3, at most 10 pages, the other settings at their defaults. *)
Definition small_config : config := with_target 3 10 default_config.

(** The scenario of the specification: a duplicate across pages and a
    detail failure in the second page. *)
Definition scenario : source :=
  serve [[sample_video "a"; sample_video "b"];
         [sample_video "a"; detail_fails "c"];
         [media_fails "e"; sample_video "c"; sample_video "d"]].


Definition same_loops (st st' : state) : Prop := loops st' = loops st.


(** The sleeps of the page handler, in order. *)
Fixpoint page_sleeps (tr : list event) : list Q :=
  match tr with
  | [] => []
  | EvPageError _ q :: tr' => q :: page_sleeps tr'
  | _ :: tr' => page_sleeps tr'
  end.

Definition non_decreasing (l : list Q) : Prop :=
  forall i a b, l !! i = Some a -> l !! S i = Some b -> (a <= b)%Q.

(** The number of session creations in a trace. *)
Fixpoint sessions (tr : list event) : nat :=
  match tr with
  | [] => O
  | EvNewSession :: tr' => S (sessions tr')
  | _ :: tr' => sessions tr'
  end.

(** Between two states with no item saved and no session created, the
    error counter has not gone down. *)
Record errors_kept (st st' : state) : Prop := {
  kept_count : downloaded_count st <= downloaded_count st';
  kept_sessions : (sessions (trace st) <= sessions (trace st'))%nat;
  kept_errors :
    downloaded_count st' = downloaded_count st ->
    sessions (trace st') = sessions (trace st) ->
    consecutive_errors st <= consecutive_errors st'
}.

(** The same configuration with another [MAX_CONSECUTIVE_ERRORS]. *)
Definition with_max_consecutive_errors (n : Z) (cfg : config) : config :=
  {| COUNT := COUNT cfg; PAGE_SIZE := PAGE_SIZE cfg;
     MAX_LOOPS := MAX_LOOPS cfg;
     MAX_CONSECUTIVE_ERRORS := n;
     BACKOFF_BASE_SEC := BACKOFF_BASE_SEC cfg;
     BACKOFF_MAX_SEC := BACKOFF_MAX_SEC cfg;
     JITTER_SEC := JITTER_SEC cfg;
     RESET_SESSION_AFTER_ERRORS := RESET_SESSION_AFTER_ERRORS cfg;
     POPULAR_SOUND_MIN_USES := POPULAR_SOUND_MIN_USES cfg;
     DOWNLOAD_DIR := DOWNLOAD_DIR cfg |}.

(** ** Reading an ISO-8601 UTC timestamp back *)

(** The calendar functions of [datetime] in the other direction. *)
Definition is_leap (y : Z) : bool :=
  (y mod 4 =? 0)%Z && (negb (y mod 100 =? 0)%Z || (y mod 400 =? 0)%Z).

Definition days_before_year (y : Z) : Z :=
  let y := y - 1 in
  y * 365 + y / 4 - y / 100 + y / 400.

Definition days_in_month_of (y m : Z) : Z :=
  if (m =? 2)%Z && is_leap y then 29 else days_in_month m.

Definition ymd2ord (y m d : Z) : Z :=
  days_before_year y
  + (days_before_month m + Z_of_bool ((2 <? m)%Z && is_leap y))
  + d.

(** Month and day from the day of the year (0 for January 1st), the part
    of [ord2ymd] after the year is known. *)
Definition month_day (n : Z) (leapyear : bool) : Z * Z :=
  let month := Z.shiftr (n + 50) 5 in
  let preceding :=
    days_before_month month + Z_of_bool ((2 <? month)%Z && leapyear) in
  if (n <? preceding)%Z then
    let month := month - 1 in
    let preceding :=
      preceding - (days_in_month month
                   + Z_of_bool ((month =? 2)%Z && leapyear)) in
    (month, n - preceding + 1)
  else (month, n - preceding + 1).

(** Two decimal digits. *)
Definition parse2 (a b : ascii) : option Z :=
  match digit_val a, digit_val b with
  | Some x, Some y => Some (10 * x + y)
  | _, _ => None
  end.

Definition sep (c expected : ascii) : bool := Ascii.eqb c expected.

(** The epoch seconds denoted by a string of the form
    [YYYY-MM-DDTHH:MM:SS+00:00] that names a date of the years 1 to 9999
    and a time of day; [None] for any other string. *)
Definition epoch_of_iso (s : string) : option Z :=
  match list_ascii_of_string s with
  | [y1; y2; y3; y4; c1; m1; m2; c2; d1; d2; c3; h1; h2; c4; n1; n2; c5;
     s1; s2; c6; z1; z2; c7; z3; z4] =>
      if sep c1 "-" && sep c2 "-" && sep c3 "T" && sep c4 ":" && sep c5 ":"
         && sep c6 "+" && sep z1 "0" && sep z2 "0" && sep c7 ":"
         && sep z3 "0" && sep z4 "0"
      then
        match parse2 y1 y2, parse2 y3 y4, parse2 m1 m2, parse2 d1 d2,
              parse2 h1 h2, parse2 n1 n2, parse2 s1 s2 with
        | Some yh, Some yl, Some mo, Some d, Some h, Some mi, Some sec =>
            let y := 100 * yh + yl in
            if (1 <=? y)%Z && (1 <=? mo)%Z && (mo <=? 12)%Z && (1 <=? d)%Z
               && (d <=? days_in_month_of y mo)%Z
               && (h <? 24)%Z && (mi <? 60)%Z && (sec <? 60)%Z
            then Some ((ymd2ord y mo d - EPOCH_ORDINAL) * 86400
                       + h * 3600 + mi * 60 + sec)
            else None
        | _, _, _, _, _, _, _ => None
        end
      else None
  | _ => None
  end.

(** ** Vocabulary of the further properties *)

(** A usage count as the lookup returns it: absent or an integer. *)
Definition count_or_none (v : pyval) : Prop :=
  v = PNone \/ isinstance_int v = true.

(** The top-level [videoCount] of an entity record. *)
Definition top_level_count (d : list (string * pyval)) : pyval :=
  default PNone (assoc "videoCount" d).

(** Whatever was cached stays cached, with the same value. *)
Definition cache_kept (st st' : state) : Prop :=
  forall k c,
    cache_lookup k (music_usage_cache st) = Some c ->
    cache_lookup k (music_usage_cache st') = Some c.

(** Every cached usage count is absent or an integer. *)
Definition cache_counts (st : state) : Prop :=
  forall k c,
    cache_lookup k (music_usage_cache st) = Some c -> count_or_none c.

(** The two outputs and the media files grow together. *)
Definition outputs_in_step (st st' : state) : Prop :=
  exists (new : list row) (new_files : list (string * string)),
    jsonl_rows st' = (jsonl_rows st ++ new)%list
    /\ csv_rows st' = (csv_rows st ++ new)%list
    /\ files st' = (files st ++ new_files)%list
    /\ new_files.*1 = download_path <$> new.

(** What holds of every row that is written, whatever the item. *)
Record row_ok (cfg : config) (r : row) : Prop := {
  row_id : video_id r <> "";
  row_path :
    download_path r = path_join (DOWNLOAD_DIR cfg) (video_id r ++ ".mp4");
  row_url : watch_url r = watch_url_of (username r) (video_id r);
  row_count : count_or_none (music_uses_count r);
  row_sound : exists d,
      (uses_popular_sound r, popular_sound_reason r)
      = _popular_sound_heuristic cfg (PDict d) (music_uses_count r);
  row_tags_hash : Forall (fun t => startswith_hash t = true) (hashtags r);
  row_tags_distinct : NoDup (lower <$> hashtags r)
}.

(** Rows are well formed as long as the cache holds counts only. *)
Definition rows_ok (cfg : config) (st st' : state) : Prop :=
  cache_counts st ->
  cache_counts st'
  /\ exists new, jsonl_rows st' = (jsonl_rows st ++ new)%list
                 /\ Forall (row_ok cfg) new.

(** The row written for an item processed under [video_id], from its
    detail record and the usage count resolved for its sound. *)
Definition row_for (cfg : config) (v : video) (video_id : string)
    (data : video_data) (music_uses_count : pyval) : row :=
  let music_obj := py_or (music data) (PDict []) in
  let sound := _popular_sound_heuristic cfg music_obj music_uses_count in
  {| video_id := video_id;
     watch_url := watch_url_of (author_uniqueId v) video_id;
     username := author_uniqueId v;
     create_time_iso := _to_iso (createTime data);
     hashtags := _extract_hashtags data;
     uses_popular_sound := sound.1;
     music_uses_count := music_uses_count;
     popular_sound_reason := sound.2;
     caption := default "" (desc data);
     download_path := path_join (DOWNLOAD_DIR cfg) (video_id ++ ".mp4") |}.

(** The page requests of a trace, in order: loop number, number of items
    still needed, number of items requested. *)
Fixpoint page_requests (tr : list event) : list (Z * Z * Z) :=
  match tr with
  | [] => []
  | EvPage n need requesting :: tr' => (n, need, requesting) :: page_requests tr'
  | _ :: tr' => page_requests tr'
  end.

Definition is_page_event (e : event) : bool :=
  match e with
  | EvPage _ _ _ => true
  | _ => false
  end.

(** No page was requested and the loop counter is as it was. *)
Definition no_request (st st' : state) : Prop :=
  page_requests (trace st') = page_requests (trace st)
  /\ loops st' = loops st.

(** A request asks for what is still needed, at most a page of it. *)
Definition request_ok (cfg : config) (q : Z * Z * Z) : Prop :=
  1 <= q.1.2 <= COUNT cfg /\ q.2 = Z.min (PAGE_SIZE cfg) q.1.2.

(** The range in which [consecutive_errors] lies between two turns of the
    loop: from 0 to one less than the reset threshold. *)
Definition errors_limit (cfg : config) : Z :=
  Z.max (RESET_SESSION_AFTER_ERRORS cfg - 1) 0.

Definition errors_in_range (cfg : config) (st : state) : Prop :=
  0 <= consecutive_errors st <= errors_limit cfg.

(** What a piece of the loop leaves of the counter, started within range:
    within range when it returns, at most [slack] above when it raises. *)
Definition counts_errors {A : Type} (cfg : config) (slack : Z) (m : M A)
  : Prop :=
  forall st, errors_in_range cfg st ->
    match (m st).2 with
    | Ok _ => errors_in_range cfg (m st).1
    | Raise _ => 0 <= consecutive_errors (m st).1 <= errors_limit cfg + slack
    end.






(** * Properties *)

(** ** Reasoning about stateful code *)

Ltac run_monad :=
  cbv [mbind M_bind mret M_ret get modify raise lift sleep _new_session
       try_except].

Lemma set_cache_same st : set_music_usage_cache (music_usage_cache st) st = st.
Proof. by destruct st. Qed.

Lemma cached_music_uses_count_spec v music_obj music_id st :
  (exists c x, cached_music_uses_count v music_obj music_id st
               = (set_music_usage_cache c st, Ok x))
  \/ (exists e, cached_music_uses_count v music_obj music_id st = (st, Raise e)).
Proof.
  unfold cached_music_uses_count.
  destruct (hashable music_id); simpl; [|right; by eexists].
  run_monad.
  destruct (cache_lookup _ _) as [x|].
  - left. exists (music_usage_cache st), x. by rewrite set_cache_same.
  - destruct (_fetch_music_usage_count _ _ _) as [x|e].
    + left. by eexists _, x.
    + right. by eexists.
Qed.

Lemma process_item_outcome cfg v st :
  item_outcome cfg v st (process_item cfg v st).1 (process_item cfg v st).2.
Proof.
  unfold process_item, item_body.
  destruct (item_fresh v st) as [id|] eqn:Hf; unfold item_fresh in Hf.
  - destruct (listing_id v) as [id'|] eqn:Hid; [|done].
    run_monad.
    destruct (_ || _) eqn:Hs; [done|]. injection Hf as ->.
    assert (Hfresh : item_fresh v st = Some id)
      by (unfold item_fresh; by rewrite Hid, Hs).
    fold (mark_seen id st).
    destruct (info v) as [data|e]; [|by apply item_failed].
    destruct (music_id_of _) as [music_id|e]; [|by apply item_failed].
    destruct (cached_music_uses_count_spec v (py_or (music data) (PDict []))
                music_id (mark_seen id st)) as [(c & x & ->)|(e & ->)];
      [|by apply item_failed].
    destruct (_popular_sound_heuristic _ _ _) as [popular reason].
    destruct (media v) as [b|e] eqn:Hm.
    + match goal with
      | |- context [append_record ?r _] =>
          exact (item_saved cfg v st r b c Hfresh Hm)
      end.
    + by apply item_download_failed.
  - assert (process_item cfg v st = (st, Ok tt)) as Heq.
    { unfold process_item, item_body. destruct (listing_id v); [|done].
      run_monad. by destruct (_ || _). }
    unfold process_item, item_body in Heq. rewrite Heq.
    apply item_skipped. exact Hf.
Qed.

(** ** Lifting a preorder on states through the code *)

Section Respects.
Context (R : state -> state -> Prop) `{!PreOrder R}.

Lemma respects_ret {A} (a : A) : respects R (mret a).
Proof. intros st. simpl. reflexivity. Qed.

Lemma respects_get : respects R get.
Proof. intros st. simpl. reflexivity. Qed.

Lemma respects_raise {A} e : respects R (@raise A e).
Proof. intros st. simpl. reflexivity. Qed.

Lemma respects_lift {A} (r : result A) : respects R (lift r).
Proof. intros st. simpl. reflexivity. Qed.

Lemma respects_modify f : (forall st, R st (f st)) -> respects R (modify f).
Proof. intros Hf st. apply Hf. Qed.

Lemma respects_bind {A B} (m : M A) (k : A -> M B) :
  respects R m -> (forall a, respects R (k a)) -> respects R (m ≫= k).
Proof.
  intros Hm Hk st. unfold mbind, M_bind. specialize (Hm st).
  destruct (m st) as [st1 [a|e]]; simpl in *; [|done].
  etrans; [exact Hm|apply Hk].
Qed.

Lemma respects_try_except {A} (m : M A) (h : exn -> M A) :
  respects R m -> (forall e, respects R (h e)) -> respects R (try_except m h).
Proof.
  intros Hm Hh st. unfold try_except. specialize (Hm st).
  destruct (m st) as [st1 [a|e]]; simpl in *; [done|].
  etrans; [exact Hm|apply Hh].
Qed.

Lemma respects_if {A} (b : bool) (m1 m2 : M A) :
  respects R m1 -> respects R m2 -> respects R (if b then m1 else m2).
Proof. by destruct b. Qed.
End Respects.

Create HintDb respects.

#[local] Hint Resolve respects_ret respects_get respects_raise respects_lift
  respects_modify respects_bind respects_try_except respects_if : respects.

(** ** [progress] is a preorder kept by every state update *)

Lemma progress_refl st : progress st st.
Proof.
  split; [done| |lia|done].
  exists []. rewrite !app_nil_r. split_and!; [done|done|simpl; lia|apply NoDup_nil_2|].
  intros r Hr. by apply elem_of_nil in Hr.
Qed.

Lemma progress_trans st1 st2 st3 :
  progress st1 st2 -> progress st2 st3 -> progress st1 st3.
Proof.
  intros [Hs1 (n1 & Hj1 & Hc1 & Hd1 & Hn1 & Hi1) Hl1 Ht1]
         [Hs2 (n2 & Hj2 & Hc2 & Hd2 & Hn2 & Hi2) Hl2 Ht2].
  split; [by etrans| |lia|by etrans].
  exists (n1 ++ n2)%list. split_and!.
  - by rewrite Hj2, Hj1, app_assoc.
  - by rewrite Hc2, Hc1, app_assoc.
  - rewrite Hd2, Hd1, length_app. lia.
  - rewrite map_app. apply NoDup_app. repeat split; [done| |done].
    intros id Hin1 Hin2.
    apply list_elem_of_fmap in Hin1 as (r1 & -> & Hr1).
    apply list_elem_of_fmap in Hin2 as (r2 & Heq & Hr2).
    destruct (Hi1 _ Hr1) as [_ Hseen]. destruct (Hi2 _ Hr2) as [Hnot _].
    rewrite <- Heq in Hnot. by apply Hnot.
  - intros r Hr. apply elem_of_app in Hr as [Hr|Hr].
    + destruct (Hi1 _ Hr) as [Ha Hb]. split; [done|by apply Hs2].
    + destruct (Hi2 _ Hr) as [Ha Hb]. split; [|done].
      intros Hin. by apply Ha, Hs1.
Qed.

#[local] Instance progress_preorder : PreOrder progress.
Proof. split; [exact progress_refl|exact progress_trans]. Qed.

(** Updates that touch neither the outputs nor the counters of progress. *)
Lemma progress_same st st' :
  seen_ids st ⊆ seen_ids st' ->
  jsonl_rows st' = jsonl_rows st -> csv_rows st' = csv_rows st ->
  downloaded_count st' = downloaded_count st ->
  loops st <= loops st' -> (trace st) `prefix_of` (trace st') ->
  progress st st'.
Proof.
  intros Hs Hj Hc Hd Hl Ht. split; [done| |done|done].
  exists []. rewrite !app_nil_r. split_and!; [done|done|simpl; lia|apply NoDup_nil_2|].
  intros r Hr. by apply elem_of_nil in Hr.
Qed.

Lemma progress_emit e st : progress st (emit e st).
Proof.
  apply progress_same; simpl;
    first [done | lia | set_solver | by apply prefix_app_r].
Qed.

Lemma progress_set_consecutive_errors n st :
  progress st (set_consecutive_errors n st).
Proof.
  apply progress_same; simpl;
    first [done | lia | set_solver | by apply prefix_app_r].
Qed.

Lemma progress_set_music_usage_cache c st :
  progress st (set_music_usage_cache c st).
Proof.
  apply progress_same; simpl;
    first [done | lia | set_solver | by apply prefix_app_r].
Qed.

Lemma progress_mark_seen id st : progress st (mark_seen id st).
Proof.
  apply progress_same; simpl;
    first [done | lia | set_solver | by apply prefix_app_r].
Qed.

Lemma progress_set_loops st : progress st (set_loops (loops st + 1) st).
Proof.
  apply progress_same; simpl;
    first [done | lia | set_solver | by apply prefix_app_r].
Qed.

#[local] Hint Resolve progress_emit progress_set_consecutive_errors
  progress_set_music_usage_cache progress_mark_seen progress_set_loops
  : respects.

Ltac respects_auto :=
  repeat first
    [ solve [auto with respects]
    | progress intros
    | apply respects_bind; [typeclasses eauto|..]
    | apply respects_try_except; [typeclasses eauto|..]
    | match goal with
      | |- respects _ (if ?b then _ else _) => destruct b
      | |- respects _ (match ?x with _ => _ end) => destruct x
      end
    | apply respects_modify; [typeclasses eauto|..]
    | apply respects_ret; typeclasses eauto
    | apply respects_get; typeclasses eauto
    | apply respects_raise; typeclasses eauto
    | apply respects_lift; typeclasses eauto ].

Lemma respects_new_session answer : respects progress (_new_session answer).
Proof. unfold _new_session. respects_auto. Qed.

Lemma respects_sleep q : respects progress (sleep q).
Proof. unfold sleep. respects_auto. Qed.

Lemma respects_item_handler cfg v e : respects progress (item_handler cfg v e).
Proof.
  unfold item_handler. pose proof respects_new_session. respects_auto.
Qed.

(** ** One item *)

Lemma item_handler_eq cfg v e st :
  item_handler cfg v e st =
  let st1 := item_error_counted e st in
  if (RESET_SESSION_AFTER_ERRORS cfg <=? consecutive_errors st + 1)%Z
  then
    match item_reset v with
    | Ok _ =>
        (set_consecutive_errors 0 (emit EvNewSession (emit EvItemRestart st1)),
         Ok tt)
    | Raise e' => (emit EvNewSession (emit EvItemRestart st1), Raise e')
    end
  else (st1, Ok tt).
Proof.
  unfold item_handler, item_error_counted. run_monad. simpl.
  destruct (_ <=? _)%Z; [|done]. by destruct (item_reset v) as [[]|].
Qed.

Lemma item_handler_frame cfg v e st :
  let st' := (item_handler cfg v e st).1 in
  downloaded_count st' = downloaded_count st
  /\ seen_ids st' = seen_ids st
  /\ jsonl_rows st' = jsonl_rows st
  /\ loops st' = loops st.
Proof.
  rewrite item_handler_eq. simpl.
  destruct (_ <=? _)%Z; [|done]. by destruct (item_reset v).
Qed.

Lemma respects_process_item cfg v : respects progress (process_item cfg v).
Proof.
  intros st. destruct (process_item_outcome cfg v st) as [Hf|r b c Hf Hm|id e c Hf Hm|id e Hf].
  - reflexivity.
  - unfold item_fresh in Hf. destruct (listing_id v); [|done].
    destruct (_ || _) eqn:Hs; [done|]. injection Hf as ->.
    apply orb_false_elim in Hs as [_ Hs]. apply bool_decide_eq_false in Hs.
    split; simpl; [set_solver| |lia|].
    + exists [r]. split_and!; [done|done|simpl; lia| |].
      * apply NoDup_singleton.
      * intros r' Hr'. apply list_elem_of_singleton in Hr' as ->.
        split; [done|set_solver].
    + do 2 apply prefix_app_r. done.
  - etrans; [apply (progress_mark_seen id)|].
    etrans; [apply progress_set_music_usage_cache|apply progress_emit].
  - etrans; [apply (progress_mark_seen id)|apply respects_item_handler].
Qed.

Lemma process_item_count cfg v st :
  downloaded_count st <= downloaded_count (process_item cfg v st).1
                      <= downloaded_count st + 1.
Proof.
  destruct (process_item_outcome cfg v st) as [Hf|r b c Hf Hm|id e c Hf Hm|id e Hf];
    simpl; try lia.
  destruct (item_handler_frame cfg v e (mark_seen id st)) as (-> & _).
  simpl. lia.
Qed.

(** ** One page *)

#[local] Instance loop_progress_preorder cfg : PreOrder (loop_progress cfg).
Proof.
  split.
  - intros st. split; [reflexivity|by intros ?].
  - intros st1 st2 st3 [Hp1 Hw1] [Hp2 Hw2].
    split; [by etrans|]. intros H. by apply Hw2, Hw1.
Qed.

Lemma loop_progress_same cfg st st' :
  progress st st' -> downloaded_count st' = downloaded_count st ->
  loop_progress cfg st st'.
Proof. intros Hp Hd. split; [done|]. unfold within_target. by rewrite Hd. Qed.

Lemma respects_async_for cfg got_any vs finish :
  respects (loop_progress cfg) (async_for cfg got_any vs finish).
Proof.
  revert got_any. induction vs as [|v vs IH]; intros got_any st; simpl.
  - run_monad. destruct finish; simpl; reflexivity.
  - run_monad. destruct (COUNT cfg <=? downloaded_count st)%Z eqn:Hc; [reflexivity|].
    apply Z.leb_gt in Hc.
    pose proof (respects_process_item cfg v st) as Hp.
    pose proof (process_item_count cfg v st) as Hn.
    destruct (process_item cfg v st) as [st1 [[]|e]]; simpl in *.
    + etrans; [|apply IH]. split; [done|]. intros _. lia.
    + split; [done|]. intros _. lia.
Qed.

Lemma loop_progress_emit cfg e st : loop_progress cfg st (emit e st).
Proof. apply loop_progress_same; [apply progress_emit|done]. Qed.

Lemma loop_progress_set_consecutive_errors cfg n st :
  loop_progress cfg st (set_consecutive_errors n st).
Proof. apply loop_progress_same; [apply progress_set_consecutive_errors|done]. Qed.

Lemma loop_progress_set_loops cfg st :
  loop_progress cfg st (set_loops (loops st + 1) st).
Proof. apply loop_progress_same; [apply progress_set_loops|done]. Qed.

#[local] Hint Resolve loop_progress_emit loop_progress_set_consecutive_errors
  loop_progress_set_loops respects_async_for : respects.

Lemma respects_page_new_session cfg answer :
  respects (loop_progress cfg) (_new_session answer).
Proof. unfold _new_session. respects_auto. Qed.

Lemma respects_page_sleep cfg q : respects (loop_progress cfg) (sleep q).
Proof. unfold sleep. respects_auto. Qed.

#[local] Hint Resolve respects_page_new_session respects_page_sleep : respects.

Lemma respects_page_body cfg p : respects (loop_progress cfg) (page_body cfg p).
Proof. unfold page_body. respects_auto. Qed.

Lemma respects_page_handler cfg p e :
  respects (loop_progress cfg) (page_handler cfg p e).
Proof. unfold page_handler. respects_auto. Qed.

Lemma page_iteration_eq cfg src st :
  page_iteration cfg src st =
  let loop_no := loops st + 1 in
  let need := COUNT cfg - downloaded_count st in
  let p := pages src loop_no in
  try_except (page_body cfg p) (page_handler cfg p)
    (emit (EvPage loop_no need (Z.min (PAGE_SIZE cfg) need))
       (set_loops loop_no st)).
Proof. reflexivity. Qed.

Lemma respects_page_iteration cfg src :
  respects (loop_progress cfg) (page_iteration cfg src).
Proof.
  intros st. rewrite page_iteration_eq. cbv zeta.
  etrans; [apply loop_progress_set_loops|].
  etrans; [apply loop_progress_emit|].
  apply respects_try_except; [typeclasses eauto|..].
  - apply respects_page_body.
  - apply respects_page_handler.
Qed.

Lemma respects_while_loop cfg src fuel :
  respects (loop_progress cfg) (while_loop cfg src fuel).
Proof.
  induction fuel as [|fuel IH]; intros st; simpl; run_monad.
  - destruct (loop_condition cfg st); reflexivity.
  - destruct (loop_condition cfg st); [|reflexivity].
    pose proof (respects_page_iteration cfg src st) as Hp.
    destruct (page_iteration cfg src st) as [st1 [[]|e]]; simpl in *; [|done].
    etrans; [exact Hp|apply IH].
Qed.

Lemma respects_trending_videos_body cfg src :
  respects (loop_progress cfg) (trending_videos_body cfg src).
Proof.
  unfold trending_videos_body. pose proof (respects_while_loop cfg src).
  respects_auto.
Qed.

(** ** The whole run *)

Lemma run_progress cfg src :
  loop_progress cfg initial_state (trending_videos cfg src).1.
Proof. apply respects_trending_videos_body. Qed.

Lemma skip_seen cfg v st :
  item_fresh v st = None -> process_item cfg v st = (st, Ok tt).
Proof.
  intros Hf. unfold item_fresh in Hf. unfold process_item, item_body.
  destruct (listing_id v); [|done]. run_monad. by destruct (_ || _).
Qed.

(** C1. Dedup invariant: whatever the configuration and whatever the
    Content Source serves, the lines appended to the JSONL output have
    pairwise distinct identifiers; and an item whose identifier is already
    in [seen_ids] is skipped without any change of state, so without a
    record, a console line or a change of a counter. *)
Theorem dedup_invariant (cfg : config) (src : source) :
  NoDup (map video_id (jsonl_rows (trending_videos cfg src).1))
  /\ forall (v : video) (st : state) (id : string),
       listing_id v = Some id -> id ∈ seen_ids st ->
       process_item cfg v st = (st, Ok tt).
Proof.
  split.
  - destruct (run_progress cfg src) as [[_ (new & Hj & _ & _ & Hn & _) _ _] _].
    by rewrite Hj.
  - intros v st id Hid Hseen. apply skip_seen. unfold item_fresh.
    rewrite Hid. rewrite (bool_decide_eq_true_2 _ Hseen). by rewrite orb_true_r.
Qed.

Lemma dedup_invariant_witness :
  process_item small_config (sample_video "a") (mark_seen "a" initial_state)
  = (mark_seen "a" initial_state, Ok tt).
Proof.
  apply (proj2 (dedup_invariant small_config scenario)) with (id := "a").
  - reflexivity.
  - vm_compute. reflexivity.
Defined.







Lemma item_fresh_intro v st id :
  listing_id v = Some id -> id <> "" -> id ∉ seen_ids st ->
  item_fresh v st = Some id.
Proof.
  intros Hid Hne Hns. unfold item_fresh. rewrite Hid.
  apply String.eqb_neq in Hne. rewrite Hne.
  by rewrite (bool_decide_eq_false_2 _ Hns).
Qed.

Lemma item_fresh_seen v st id :
  listing_id v = Some id -> id ∈ seen_ids st -> item_fresh v st = None.
Proof.
  intros Hid Hs. unfold item_fresh. rewrite Hid.
  by rewrite (bool_decide_eq_true_2 _ Hs), orb_true_r.
Qed.

(** C3, as stated, fails: the identifier of an item whose detail fetch
    raised is in [seen_ids] although nothing was captured, and the same
    identifier, served again by an item that would succeed, is skipped. *)
Lemma failed_item_stays_seen :
  let st := (process_item small_config (detail_fails "c") initial_state).1 in
  "c" ∈ seen_ids st
  /\ jsonl_rows st = []
  /\ downloaded_count st = 0
  /\ process_item small_config (sample_video "c") st = (st, Ok tt).
Proof.
  intros st.
  assert ("c" ∈ seen_ids st) as Hs by (vm_compute; reflexivity).
  split_and!; [exact Hs|reflexivity|reflexivity|].
  apply skip_seen. by apply item_fresh_seen with (id := "c").
Qed.

(** C3, amended. The identifier of an item (present, non-empty, not yet
    seen) is added to [seen_ids] when its processing starts, whatever
    follows. If the item is captured, exactly one row with this identifier
    is appended, [downloaded_count] grows by one and
    [consecutive_errors] is reset to 0; otherwise output and count are
    unchanged. In both cases an item that carries the same identifier
    later is skipped, so a failed item is not retried. *)
Theorem seen_when_processing_starts (cfg : config) (v : video) (st : state)
    (id : string) :
  listing_id v = Some id -> id <> "" -> id ∉ seen_ids st ->
  let st' := (process_item cfg v st).1 in
  seen_ids st' = {[id]} ∪ seen_ids st
  /\ ((exists r, jsonl_rows st' = (jsonl_rows st ++ [r])%list
                 /\ video_id r = id
                 /\ downloaded_count st' = downloaded_count st + 1
                 /\ consecutive_errors st' = 0)
      \/ (jsonl_rows st' = jsonl_rows st
          /\ downloaded_count st' = downloaded_count st))
  /\ (forall v2, listing_id v2 = Some id ->
        process_item cfg v2 st' = (st', Ok tt)).
Proof.
  intros Hid Hne Hns st'.
  pose proof (item_fresh_intro v st id Hid Hne Hns) as Hf.
  assert (seen_ids st' = {[id]} ∪ seen_ids st
          /\ ((exists r, jsonl_rows st' = (jsonl_rows st ++ [r])%list
                 /\ video_id r = id
                 /\ downloaded_count st' = downloaded_count st + 1
                 /\ consecutive_errors st' = 0)
              \/ (jsonl_rows st' = jsonl_rows st
                  /\ downloaded_count st' = downloaded_count st)))
    as [Hseen Hrows].
  { subst st'.
    destruct (process_item_outcome cfg v st)
      as [Hf'|r b c Hf' Hm|id' e c Hf' Hm|id' e Hf']; rewrite Hf in Hf'.
    - done.
    - injection Hf' as ->. split; [done|]. left. by exists r.
    - injection Hf' as <-. split; [done|]. by right.
    - injection Hf' as <-.
      destruct (item_handler_frame cfg v e (mark_seen id st))
        as (Hd & Hs & Hj & _).
      rewrite Hs, Hj, Hd. split; [done|]. by right. }
  split_and!; [done|done|].
  intros v2 Hid2. apply skip_seen, item_fresh_seen with (id := id); [done|].
  rewrite Hseen. by apply elem_of_union_l, elem_of_singleton.
Qed.

Lemma seen_when_processing_starts_witness :
  seen_ids (process_item small_config (detail_fails "c") initial_state).1
  = {["c"]} ∪ seen_ids initial_state.
Proof.
  apply (seen_when_processing_starts small_config (detail_fails "c")
           initial_state "c").
  - reflexivity.
  - discriminate.
  - simpl. apply not_elem_of_empty.
Defined.

(** ** Item-level failures *)



Lemma lookup_try_raise e : lookup_try (Raise e) = None.
Proof. reflexivity. Qed.








(** ** Termination and exit of the run *)

#[local] Instance same_loops_preorder : PreOrder same_loops.
Proof.
  split; [by intros ?|]. intros st1 st2 st3 H1 H2. unfold same_loops in *.
  by rewrite H2.
Qed.

Lemma same_loops_emit e st : same_loops st (emit e st).
Proof. done. Qed.
Lemma same_loops_errors n st : same_loops st (set_consecutive_errors n st).
Proof. done. Qed.
Lemma same_loops_count n st : same_loops st (set_downloaded_count n st).
Proof. done. Qed.
Lemma same_loops_seen s st : same_loops st (set_seen_ids s st).
Proof. done. Qed.
Lemma same_loops_cache c st : same_loops st (set_music_usage_cache c st).
Proof. done. Qed.
Lemma same_loops_record r st : same_loops st (append_record r st).
Proof. done. Qed.
Lemma same_loops_file p b st : same_loops st (write_file p b st).
Proof. done. Qed.

#[local] Hint Resolve same_loops_emit same_loops_errors same_loops_count
  same_loops_seen same_loops_cache same_loops_record same_loops_file
  : respects.

Lemma process_item_loops cfg v : respects same_loops (process_item cfg v).
Proof.
  unfold process_item, item_body, item_handler, cached_music_uses_count,
    sleep, _new_session.
  respects_auto.
Qed.

Lemma async_for_loops cfg got_any vs finish :
  respects same_loops (async_for cfg got_any vs finish).
Proof.
  revert got_any. induction vs as [|v vs IH]; intros got_any; simpl.
  - respects_auto.
  - pose proof (process_item_loops cfg v). respects_auto.
Qed.

Lemma page_body_loops cfg p : respects same_loops (page_body cfg p).
Proof.
  unfold page_body, sleep. pose proof (async_for_loops cfg). respects_auto.
Qed.

Lemma page_handler_loops cfg p e : respects same_loops (page_handler cfg p e).
Proof. unfold page_handler, sleep, _new_session. respects_auto. Qed.

Lemma page_iteration_loops cfg src st :
  loops (page_iteration cfg src st).1 = loops st + 1.
Proof.
  rewrite page_iteration_eq. cbv zeta.
  match goal with
  | |- loops (try_except ?m ?h ?s).1 = _ =>
      change (loops st + 1) with (loops s);
      apply (respects_try_except same_loops m h)
  end.
  - apply page_body_loops.
  - intros e. apply page_handler_loops.
Qed.

Lemma page_handler_eq cfg p e st :
  page_handler cfg p e st =
  let errors := consecutive_errors st + 1 in
  let sleep_for :=
    (backoff_expo cfg errors + uniform 0 (JITTER_SEC cfg) (backoff_draw p))%Q in
  let st1 :=
    emit (EvSleep sleep_for)
      (emit (EvPageError (exn_msg e) sleep_for)
         (set_consecutive_errors errors st)) in
  if (RESET_SESSION_AFTER_ERRORS cfg <=? errors)%Z
  then
    match page_reset p with
    | Ok _ =>
        (set_consecutive_errors 0 (emit EvNewSession (emit EvPageRecreate st1)),
         Ok tt)
    | Raise e' => (emit EvNewSession (emit EvPageRecreate st1), Raise e')
    end
  else (st1, Ok tt).
Proof.
  unfold page_handler. run_monad. simpl.
  destruct (_ <=? _)%Z; [|done]. by destruct (page_reset p) as [[]|].
Qed.

Lemma page_iteration_raises cfg src st e' :
  (page_iteration cfg src st).2 = Raise e' ->
  page_reset (pages src (loops st + 1)) = Raise e'.
Proof.
  rewrite page_iteration_eq. cbv zeta. unfold try_except.
  destruct (page_body _ _ _) as [st1 [[]|e]]; [done|].
  rewrite page_handler_eq. cbv zeta.
  destruct (_ <=? _)%Z; [|done].
  destruct (page_reset _) as [[]|e'']; [done|]. simpl. by intros [= ->].
Qed.

(** The loop ends because its condition fails, not because the fuel is
    used up; the only exception that leaves it comes from a session
    creation in the page handler. *)
Lemma while_loop_exit cfg src fuel st :
  MAX_LOOPS cfg - loops st <= Z.of_nat fuel ->
  match (while_loop cfg src fuel st).2 with
  | Ok _ => loop_condition cfg (while_loop cfg src fuel st).1 = false
  | Raise e => exists n, page_reset (pages src n) = Raise e
  end.
Proof.
  revert st. induction fuel as [|fuel IH]; intros st Hfuel; simpl; run_monad.
  - destruct (loop_condition cfg st) eqn:Hc; [|done].
    unfold loop_condition in Hc. apply andb_true_iff in Hc as [_ Hc].
    apply Z.ltb_lt in Hc. lia.
  - destruct (loop_condition cfg st) eqn:Hc; [|done].
    pose proof (page_iteration_loops cfg src st) as Hl.
    pose proof (page_iteration_raises cfg src st) as Hr.
    destruct (page_iteration cfg src st) as [st1 [[]|e]]; simpl in *.
    + apply IH. lia.
    + eexists. by apply Hr.
Qed.

Lemma trending_videos_eq cfg src :
  first_session src = Ok tt ->
  trending_videos cfg src =
  let start := emit EvNewSession initial_state in
  match while_loop cfg src (Z.to_nat (MAX_LOOPS cfg)) start with
  | (st, Ok _) => (emit (EvDone (downloaded_count st) (COUNT cfg)) st, Ok tt)
  | (st, Raise e) => (st, Raise e)
  end.
Proof.
  intros Hs. unfold trending_videos, trending_videos_body. run_monad.
  rewrite Hs. simpl.
  by destruct (while_loop _ _ _ _) as [st [[]|e]].
Qed.




(** ** Backoff *)

Lemma pow2_mono (a b : Z) : 0 <= a <= b -> (pow2 a <= pow2 b)%Q.
Proof.
  intros [Ha Hab]. unfold pow2.
  destruct (Z.ltb_spec a 0); [lia|]. destruct (Z.ltb_spec b 0); [lia|].
  rewrite <- Zle_Qle. by apply Z.pow_le_mono_r.
Qed.

Lemma backoff_expo_mono cfg (c c' : Z) :
  (0 <= BACKOFF_BASE_SEC cfg)%Q -> 0 <= c <= c' ->
  (backoff_expo cfg c <= backoff_expo cfg c')%Q.
Proof.
  intros Hb [Hc Hcc]. unfold backoff_expo.
  apply Q.min_le_compat_l.
  rewrite (Qmult_comm _ (pow2 (Z.min c 6))), (Qmult_comm _ (pow2 (Z.min c' 6))).
  apply Qmult_le_compat_r; [|done].
  apply pow2_mono. lia.
Qed.

Lemma backoff_expo_max cfg (c : Z) :
  (backoff_expo cfg c <= BACKOFF_MAX_SEC cfg)%Q.
Proof. apply Q.le_min_l. Qed.

Lemma uniform_jitter (J u : Q) :
  (0 <= J)%Q -> (0 <= u)%Q -> (u <= 1)%Q -> (0 <= uniform 0 J u <= J)%Q.
Proof. unfold uniform. intros. split; nra. Qed.

Lemma empty_page_raises cfg p st :
  items p = [] -> page_end p = Ok tt ->
  page_body cfg p st = (st, Raise (RuntimeError "Empty page (likely 10201/throttle)")).
Proof. intros Hi He. unfold page_body. rewrite Hi, He. reflexivity. Qed.

Lemma sessions_app tr1 tr2 :
  sessions (tr1 ++ tr2) = (sessions tr1 + sessions tr2)%nat.
Proof.
  induction tr1 as [|[] tr1 IH]; simpl; try done. by rewrite IH.
Qed.

#[local] Instance errors_kept_preorder : PreOrder errors_kept.
Proof.
  split.
  - intros st. split; [lia|lia|lia].
  - intros st1 st2 st3 [Hc1 Hs1 He1] [Hc2 Hs2 He2].
    split; [lia|lia|]. intros Hc Hs.
    etrans; [apply He1; lia|apply He2; lia].
Qed.

Lemma errors_kept_emit e st : e <> EvNewSession -> errors_kept st (emit e st).
Proof.
  intros He. split; simpl; [lia| |lia].
  rewrite sessions_app. lia.
Qed.

Lemma errors_kept_item cfg v : respects errors_kept (process_item cfg v).
Proof.
  intros st.
  destruct (process_item_outcome cfg v st)
    as [Hf|r b c Hf Hm|id e c Hf Hm|id e Hf].
  - reflexivity.
  - split; simpl; [lia| |lia]. rewrite !sessions_app. lia.
  - split; simpl; [lia| |lia]. rewrite sessions_app. lia.
  - rewrite item_handler_eq. cbv zeta.
    destruct (_ <=? _)%Z.
    + destruct (item_reset v) as [[]|e']; (split; simpl; [lia| |]);
        rewrite ?sessions_app; simpl; lia.
    + split; simpl; [lia| |lia]. rewrite sessions_app. simpl. lia.
Qed.

Lemma errors_kept_async_for cfg got_any vs finish :
  respects errors_kept (async_for cfg got_any vs finish).
Proof.
  revert got_any. induction vs as [|v vs IH]; intros got_any; simpl.
  - respects_auto.
  - pose proof (errors_kept_item cfg v). respects_auto.
Qed.

Lemma errors_kept_page_body cfg p st st' e :
  page_body cfg p st = (st', Raise e) -> errors_kept st st'.
Proof.
  unfold page_body. run_monad.
  pose proof (errors_kept_async_for cfg false (items p) (page_end p) st) as Hk.
  destruct (async_for _ _ _ _ _) as [st1 [got|e1]]; simpl in *.
  - destruct got; simpl; [done|]. by intros [= <- _].
  - by intros [= <- _].
Qed.

(** C6, as stated, fails: with the default thresholds and every page
    empty (no item is ever saved, every jitter draw is 0), the sleeps of
    the page handler are 4, 8, 16 and then 4 again, because the session
    reset after the third failure sets the counter back to 0. *)
Lemma backoff_restarts_after_reset :
  let run := trending_videos small_config (serve []) in
  jsonl_rows run.1 = []
  /\ ~ non_decreasing (page_sleeps (trace run.1)).
Proof.
  split; [reflexivity|].
  intros Hnd. pose proof (Hnd 2%nat) as H. vm_compute in H.
  specialize (H _ _ eq_refl eq_refl). by apply H.
Qed.

(** C6, amended. A page that yields no item becomes a page-level failure.
    The handler of a page-level failure adds one to [consecutive_errors]
    and sleeps min(BACKOFF_MAX, BACKOFF_BASE * 2^min(c, 6)) plus the jitter,
    [c] being the counter after the addition; the jitter lies between 0 and
    [JITTER_SEC] when that is not negative. If [c] has reached
    [RESET_SESSION_AFTER_ERRORS] the session is created again and the
    counter set to 0, so the next sleep starts again from the base. For a
    base that is not negative the backoff term grows with the counter and
    is at most [BACKOFF_MAX_SEC]; hence between two page-level failures
    with neither an item saved nor a session created in between, the
    backoff term does not decrease. *)
Theorem backoff_policy (cfg : config) (src : source) (st : state) :
  let p := pages src (loops st + 1) in
  let requested :=
    emit (EvPage (loops st + 1) (COUNT cfg - downloaded_count st)
            (Z.min (PAGE_SIZE cfg) (COUNT cfg - downloaded_count st)))
      (set_loops (loops st + 1) st) in
  (items p = [] -> page_end p = Ok tt ->
   page_iteration cfg src st
   = page_handler cfg p (RuntimeError "Empty page (likely 10201/throttle)")
       requested)
  /\ (forall e st1,
        let c := consecutive_errors st1 + 1 in
        let s := (Qmin (BACKOFF_MAX_SEC cfg)
                    (BACKOFF_BASE_SEC cfg * pow2 (Z.min c 6))
                  + uniform 0 (JITTER_SEC cfg) (backoff_draw p))%Q in
        let st' := (page_handler cfg p e st1).1 in
        (exists rest,
            trace st' = (trace st1 ++ [EvPageError (exn_msg e) s; EvSleep s]
                         ++ rest)%list
            /\ (rest = [] \/ rest = [EvPageRecreate; EvNewSession]))
        /\ consecutive_errors st'
           = if (RESET_SESSION_AFTER_ERRORS cfg <=? c)%Z
             then match page_reset p with Ok _ => 0 | Raise _ => c end
             else c)
  /\ (forall u, (0 <= JITTER_SEC cfg)%Q -> (0 <= u)%Q -> (u <= 1)%Q ->
        (0 <= uniform 0 (JITTER_SEC cfg) u <= JITTER_SEC cfg)%Q)
  /\ (forall c c', (0 <= BACKOFF_BASE_SEC cfg)%Q -> 0 <= c <= c' ->
        (backoff_expo cfg c <= backoff_expo cfg c')%Q
        /\ (backoff_expo cfg c' <= BACKOFF_MAX_SEC cfg)%Q)
  /\ (forall st' e,
        (0 <= BACKOFF_BASE_SEC cfg)%Q -> 0 <= consecutive_errors st ->
        page_body cfg p requested = (st', Raise e) ->
        downloaded_count st' = downloaded_count st ->
        sessions (trace st') = sessions (trace st) ->
        (backoff_expo cfg (consecutive_errors st)
         <= backoff_expo cfg (consecutive_errors st' + 1))%Q).
Proof.
  intros p requested. split_and!.
  - intros Hi He. rewrite page_iteration_eq. cbv zeta. unfold try_except.
    fold p requested. by rewrite (empty_page_raises cfg p requested Hi He).
  - intros e st1 c s st'. subst st'. rewrite page_handler_eq. cbv zeta.
    fold c. unfold backoff_expo. fold s.
    destruct (_ <=? _)%Z.
    + destruct (page_reset p) as [[]|e']; simpl;
        (split; [|done]); exists [EvPageRecreate; EvNewSession];
        (split; [|by right]); by rewrite <- !app_assoc.
    + simpl. split; [|done]. exists []. split; [|by left].
      by rewrite <- !app_assoc.
  - intros u. apply uniform_jitter.
  - intros c c' Hb Hc. split; [by apply backoff_expo_mono|apply backoff_expo_max].
  - intros st' e Hb He Hp Hd Hs.
    apply errors_kept_page_body in Hp as [_ _ Hk].
    apply backoff_expo_mono; [done|].
    assert (sessions (trace requested) = sessions (trace st)) as Hrs.
    { unfold requested. simpl. rewrite sessions_app. simpl. lia. }
    assert (consecutive_errors requested <= consecutive_errors st') as Hle.
    { apply Hk; [done|]. by rewrite Hrs. }
    simpl in Hle. lia.
Qed.

Lemma backoff_policy_witness :
  page_iteration small_config (serve []) initial_state
  = page_handler small_config (pages (serve []) 1)
      (RuntimeError "Empty page (likely 10201/throttle)")
      (emit (EvPage 1 3 3) (set_loops 1 initial_state)).
Proof.
  exact (proj1 (backoff_policy small_config (serve []) initial_state)
           eq_refl eq_refl).
Defined.

(** ** The helpers *)

(** C7. Popular-sound derivation: for a sound record with any fields, the
    flag returned is true exactly when the field [original] is [False] or
    the usage count is an integer (in Python's sense, where a [bool] is
    one) at least [POPULAR_SOUND_MIN_USES]; the same holds, with no
    [original] flag, when the sound record is absent. With the default
    threshold 1000 the three cases of the specification give
    (true, "non_original_sound"), (true, "videoCount=1500") and
    (false, "videoCount=50"). *)
Theorem popular_sound_derivation (cfg : config) (d : list (string * pyval))
    (usage : pyval) :
  let original := default PNone (assoc "original" d) in
  ((_popular_sound_heuristic cfg (PDict d) usage).1 = true
   <-> original = PBool false
       \/ exists n, as_int usage = Some n /\ POPULAR_SOUND_MIN_USES cfg <= n)
  /\ ((_popular_sound_heuristic cfg PNone usage).1 = true
      <-> exists n, as_int usage = Some n /\ POPULAR_SOUND_MIN_USES cfg <= n)
  /\ POPULAR_SOUND_MIN_USES default_config = 1000
  /\ _popular_sound_heuristic default_config
       (PDict [("original", PBool false)]) PNone
     = (true, "non_original_sound")
  /\ _popular_sound_heuristic default_config
       (PDict [("original", PBool true)]) (PInt 1500)
     = (true, "videoCount=1500")
  /\ _popular_sound_heuristic default_config
       (PDict [("original", PBool true)]) (PInt 50)
     = (false, "videoCount=50").
Proof.
  intros original.
  assert (forall o : pyval, is_False o = true <-> o = PBool false) as Hfalse.
  { intros [| [] | | | |]; simpl; split; intros H; done. }
  assert (forall o,
             (is_False o
              || match as_int usage with
                 | Some n => (POPULAR_SOUND_MIN_USES cfg <=? n)%Z
                 | None => false
                 end) = true
             <-> o = PBool false
                 \/ exists n, as_int usage = Some n
                              /\ POPULAR_SOUND_MIN_USES cfg <= n) as Hpop.
  { intros o. rewrite orb_true_iff, Hfalse.
    destruct (as_int usage) as [n|].
    - rewrite Z.leb_le. split; intros [H|H]; auto.
      + right. by exists n.
      + destruct H as (n' & [= <-] & H). by right.
    - split; intros [H|H]; auto; [done|]. by destruct H as (? & ? & _). }
  split_and!; try reflexivity.
  - unfold _popular_sound_heuristic, popular_sound_body, py_or.
    assert (py_get (if truthy (PDict d) then PDict d else PDict []) "original"
            = Ok original) as ->.
    { subst original. by destruct d. }
    simpl. apply Hpop.
  - unfold _popular_sound_heuristic, popular_sound_body, py_or. simpl.
    rewrite (Hpop PNone). split; [|by right].
    intros [H|H]; [done|exact H].
Qed.

Lemma uniq_loop_sublist seen tags : uniq_loop seen tags `sublist_of` tags.
Proof.
  revert seen. induction tags as [|t tags IH]; intros seen; simpl; [done|].
  destruct (bool_decide _).
  - by apply sublist_cons.
  - by apply sublist_skip.
Qed.

Lemma uniq_loop_unseen seen tags u :
  u ∈ uniq_loop seen tags -> lower u ∉ seen.
Proof.
  revert seen. induction tags as [|t tags IH]; intros seen; simpl.
  - by intros ?%elem_of_nil.
  - destruct (bool_decide _) eqn:Hd; [by apply IH|].
    apply bool_decide_eq_false in Hd.
    intros [->|Hin]%elem_of_cons; [done|].
    apply IH in Hin. intros Hs. apply Hin. by apply elem_of_union_r.
Qed.

Lemma uniq_loop_nodup seen tags : NoDup (lower <$> uniq_loop seen tags).
Proof.
  revert seen. induction tags as [|t tags IH]; intros seen; simpl.
  - apply NoDup_nil_2.
  - destruct (bool_decide _); [by apply IH|].
    rewrite fmap_cons. apply NoDup_cons_2; [|by apply IH].
    intros (u & Hu & Hin)%list_elem_of_fmap.
    apply uniq_loop_unseen in Hin. apply Hin. rewrite <- Hu.
    by apply elem_of_union_l, elem_of_singleton.
Qed.

Lemma uniq_loop_complete seen tags t :
  t ∈ tags ->
  lower t ∈ seen \/ exists u, u ∈ uniq_loop seen tags /\ lower u = lower t.
Proof.
  revert seen. induction tags as [|t' tags IH]; intros seen; simpl.
  - by intros ?%elem_of_nil.
  - intros [->|Hin]%elem_of_cons.
    + destruct (bool_decide _) eqn:Hd.
      * left. by apply bool_decide_eq_true in Hd.
      * right. exists t'. split; [by left|done].
    + destruct (bool_decide _) eqn:Hd.
      * by apply IH.
      * destruct (IH ({[lower t']} ∪ seen) Hin) as [Hs|(u & Hu & Hl)].
        -- apply elem_of_union in Hs as [Hs|Hs]; [|by left].
           apply elem_of_singleton in Hs. right. exists t'.
           split; [by left|done].
        -- right. exists u. split; [by right|done].
Qed.

Lemma uniq_loop_first seen tags u :
  u ∈ uniq_loop seen tags ->
  exists l1 l2, tags = (l1 ++ u :: l2)%list /\ lower u ∉ lower <$> l1.
Proof.
  revert seen. induction tags as [|t tags IH]; intros seen; simpl.
  - by intros ?%elem_of_nil.
  - destruct (bool_decide _) eqn:Hd.
    + intros Hin. pose proof (uniq_loop_unseen _ _ _ Hin) as Hns.
      apply bool_decide_eq_true in Hd.
      destruct (IH _ Hin) as (l1 & l2 & -> & Hl).
      exists (t :: l1), l2. split; [done|].
      rewrite fmap_cons. intros [Heq|Hin']%elem_of_cons; [|done].
      apply Hns. by rewrite Heq.
    + intros [->|Hin]%elem_of_cons.
      * exists [], tags. split; [done|]. by intros ?%elem_of_nil.
      * pose proof (uniq_loop_unseen _ _ _ Hin) as Hns.
        destruct (IH _ Hin) as (l1 & l2 & -> & Hl).
        exists (t :: l1), l2. split; [done|].
        rewrite fmap_cons. intros [Heq|Hin']%elem_of_cons; [|done].
        apply Hns. rewrite Heq. by apply elem_of_union_l, elem_of_singleton.
Qed.

Lemma elem_of_structured_tags l t :
  t ∈ structured_tags l
  <-> exists name, {| hashtagName := Some name |} ∈ l /\ name <> ""
                   /\ t = "#" ++ name.
Proof.
  induction l as [|[[name|]] l IH]; simpl.
  - split; [by intros ?%elem_of_nil|]. by intros (? & ?%elem_of_nil & _).
  - destruct (String.eqb_spec name "") as [->|Hne]; simpl.
    + rewrite IH. split.
      * intros (n & Hin & H). exists n. split; [by right|done].
      * intros (n & [Heq|Hin]%elem_of_cons & Hn & Ht).
        -- by injection Heq as ->.
        -- by exists n.
    + rewrite elem_of_cons, IH. split.
      * intros [->|(n & Hin & H)].
        -- exists name. split; [by left|done].
        -- exists n. split; [by right|done].
      * intros (n & [Heq|Hin]%elem_of_cons & Hn & Ht).
        -- injection Heq as ->. by left.
        -- right. by exists n.
  - rewrite IH. split.
    + intros (n & Hin & H). exists n. split; [by right|done].
    + intros (n & [Heq|Hin]%elem_of_cons & Hn & Ht); [done|by exists n].
Qed.

(** C8. Hashtag extraction. The tags are the structured annotations with
    a non-empty name, each prefixed by '#', when there is one, and the
    whitespace-separated tokens of the caption that start with '#'
    otherwise. The result keeps the order of the tags, holds no two tags
    that are equal up to case, loses no tag up to case, and each tag kept
    is the first of the tags with its lower-case form. With no annotation
    and the caption "check this #Fun #fun #NEW" the result is
    ["#Fun"; "#NEW"]. *)
Theorem hashtag_extraction (data : video_data) :
  let annotations := default [] (textExtra data) in
  let structured := structured_tags annotations in
  let caption := default "" (desc data) in
  let tags :=
    match structured with
    | [] => caption_tags caption
    | _ => structured
    end in
  let uniq := _extract_hashtags data in
  (forall t, t ∈ structured
             <-> exists name, {| hashtagName := Some name |} ∈ annotations
                              /\ name <> "" /\ t = "#" ++ name)
  /\ (forall t, t ∈ caption_tags caption
                <-> t ∈ split caption /\ startswith_hash t = true)
  /\ uniq `sublist_of` tags
  /\ NoDup (lower <$> uniq)
  /\ (forall t, t ∈ tags -> exists u, u ∈ uniq /\ lower u = lower t)
  /\ (forall u, u ∈ uniq ->
        exists l1 l2, tags = (l1 ++ u :: l2)%list /\ lower u ∉ lower <$> l1)
  /\ _extract_hashtags
       {| textExtra := None; desc := Some "check this #Fun #fun #NEW";
          createTime := PNone; music := PNone |}
     = ["#Fun"; "#NEW"]
  /\ _extract_hashtags
       {| textExtra := Some [ {| hashtagName := Some "Tag" |};
                              {| hashtagName := Some "" |};
                              {| hashtagName := Some "tag" |} ];
          desc := Some "caption #other";
          createTime := PNone; music := PNone |}
     = ["#Tag"].
Proof.
  intros annotations structured caption tags uniq.
  assert (uniq = uniq_loop ∅ tags) as Huniq.
  { subst uniq tags structured caption annotations. unfold _extract_hashtags.
    by destruct (structured_tags _). }
  split_and!.
  - intros t. apply elem_of_structured_tags.
  - intros t. unfold caption_tags. rewrite list_elem_of_In, filter_In.
    by rewrite <- list_elem_of_In.
  - rewrite Huniq. apply uniq_loop_sublist.
  - rewrite Huniq. apply uniq_loop_nodup.
  - intros t Ht. rewrite Huniq.
    destruct (uniq_loop_complete ∅ tags t Ht) as [Hs|H]; [|done].
    by apply not_elem_of_empty in Hs.
  - intros u Hu. rewrite Huniq in Hu. by apply uniq_loop_first in Hu.
  - vm_compute. reflexivity.
  - vm_compute. reflexivity.
Qed.

Lemma hashtag_extraction_witness :
  exists u,
    u ∈ _extract_hashtags
          {| textExtra := None; desc := Some "check this #Fun #fun #NEW";
             createTime := PNone; music := PNone |}
    /\ lower u = lower "#fun".
Proof.
  destruct (hashtag_extraction
              {| textExtra := None; desc := Some "check this #Fun #fun #NEW";
                 createTime := PNone; music := PNone |})
    as (_ & _ & _ & _ & H & _).
  apply (H "#fun"). vm_compute.
  apply list_elem_of_further, list_elem_of_here.
Defined.

(** ** The unused setting *)

Section MaxConsecutiveErrors.
Variable n : Z.
Variable cfg : config.
Let cfg' := with_max_consecutive_errors n cfg.

Lemma process_item_unused v st : process_item cfg' v st = process_item cfg v st.
Proof. reflexivity. Qed.

Lemma async_for_unused got_any vs finish st :
  async_for cfg' got_any vs finish st = async_for cfg got_any vs finish st.
Proof.
  revert got_any st. induction vs as [|v vs IH]; intros got_any st; simpl.
  - reflexivity.
  - run_monad. change (COUNT cfg') with (COUNT cfg).
    destruct (_ <=? _)%Z; [done|].
    rewrite process_item_unused.
    destruct (process_item cfg v st) as [st1 [[]|e]]; [apply IH|done].
Qed.

Lemma page_handler_unused p e st :
  page_handler cfg' p e st = page_handler cfg p e st.
Proof. reflexivity. Qed.

Lemma page_body_unused p st : page_body cfg' p st = page_body cfg p st.
Proof.
  unfold page_body. run_monad. rewrite async_for_unused.
  by destruct (async_for cfg false (items p) (page_end p) st) as [st1 [[]|e]].
Qed.

Lemma page_iteration_unused src st :
  page_iteration cfg' src st = page_iteration cfg src st.
Proof.
  rewrite !page_iteration_eq. cbv zeta. unfold try_except.
  rewrite page_body_unused. reflexivity.
Qed.

Lemma while_loop_unused src fuel st :
  while_loop cfg' src fuel st = while_loop cfg src fuel st.
Proof.
  revert st. induction fuel as [|fuel IH]; intros st; simpl; run_monad.
  - reflexivity.
  - change (loop_condition cfg' st) with (loop_condition cfg st).
    destruct (loop_condition cfg st); [|done].
    rewrite page_iteration_unused.
    destruct (page_iteration cfg src st) as [st1 [[]|e]]; [apply IH|done].
Qed.
End MaxConsecutiveErrors.

(** C10. [MAX_CONSECUTIVE_ERRORS] is read and never used: two runs that
    differ in this setting only, against the same Content Source, end in
    the same state (same rows in both outputs, same files, same console
    lines, sleeps and session creations in the same order, same counters)
    and with the same exit status; the helper that depends on the
    configuration returns the same result. *)
Theorem max_consecutive_errors_unused (n : Z) (cfg : config) (src : source) :
  trending_videos (with_max_consecutive_errors n cfg) src
  = trending_videos cfg src
  /\ exit_status (trending_videos (with_max_consecutive_errors n cfg) src).2
     = exit_status (trending_videos cfg src).2
  /\ forall music_obj usage,
       _popular_sound_heuristic (with_max_consecutive_errors n cfg)
         music_obj usage
       = _popular_sound_heuristic cfg music_obj usage.
Proof.
  assert (trending_videos (with_max_consecutive_errors n cfg) src
          = trending_videos cfg src) as Heq.
  { unfold trending_videos, trending_videos_body. run_monad.
    destruct (first_session src) as [[]|e]; simpl; [|done].
    change (MAX_LOOPS (with_max_consecutive_errors n cfg)) with (MAX_LOOPS cfg).
    rewrite while_loop_unused.
    by destruct (while_loop _ _ _ _) as [st1 [[]|e]]. }
  split_and!; [exact Heq|by rewrite Heq|reflexivity].
Qed.

(** ** Timestamps *)

Ltac calendar_tables :=
  repeat match goal with
    | |- context [days_before_month ?a] =>
        let v := eval vm_compute in (days_before_month a) in
        change (days_before_month a) with v
    | |- context [days_in_month ?a] =>
        let v := eval vm_compute in (days_in_month a) in
        change (days_in_month a) with v
    | |- context [Z_of_bool ?a] =>
        let v := eval vm_compute in (Z_of_bool a) in
        change (Z_of_bool a) with v
    | |- context [if ?c then _ else _] =>
        lazymatch c with
        | true => fail
        | false => fail
        | _ =>
            let v := eval vm_compute in c in
            lazymatch v with
            | true => change c with true
            | false => change c with false
            end;
            cbv iota
        end
    end.

Lemma month_day_spec n (leap : bool) :
  0 <= n < 365 + Z_of_bool leap ->
  let '(m, d) := month_day n leap in
  1 <= m <= 12
  /\ 1 <= d <= (if (m =? 2)%Z && leap then 29 else days_in_month m)
  /\ days_before_month m + Z_of_bool ((2 <? m)%Z && leap) + d = n + 1.
Proof.
  intros Hn. unfold month_day. rewrite Z.shiftr_div_pow2 by lia.
  change (2 ^ 5) with 32.
  assert (1 <= (n + 50) / 32 <= 12) as Hk
      by (destruct leap; simpl in Hn; Z.to_euclidean_division_equations; lia).
  assert (32 * ((n + 50) / 32) <= n + 50 < 32 * ((n + 50) / 32) + 32) as Hdiv
      by (Z.to_euclidean_division_equations; lia).
  remember ((n + 50) / 32) as k eqn:Ek. clear Ek.
  assert (k = 1 \/ k = 2 \/ k = 3 \/ k = 4 \/ k = 5 \/ k = 6 \/ k = 7 \/ k = 8
          \/ k = 9 \/ k = 10 \/ k = 11 \/ k = 12) as Hcases by lia.
  destruct leap; simpl in Hn;
    repeat (destruct Hcases as [->|Hcases]); try subst k;
    calendar_tables;
    match goal with
    | |- context [(n <? ?p)%Z] => destruct (Z.ltb_spec n p)
    end; calendar_tables; lia.
Qed.

Lemma digit_val_digit_char d : digit_val (digit_char d) = Some (d mod 10).
Proof.
  unfold digit_char.
  assert (0 <= d mod 10 < 10) as Hr by (apply Z.mod_pos_bound; lia).
  remember (d mod 10) as r eqn:Er. clear Er.
  assert (r = 0 \/ r = 1 \/ r = 2 \/ r = 3 \/ r = 4 \/ r = 5 \/ r = 6 \/ r = 7
          \/ r = 8 \/ r = 9) as Hcases by lia.
  repeat (destruct Hcases as [->|Hcases]); try subst r; reflexivity.
Qed.

Lemma parse2_fmt2 x :
  0 <= x < 100 -> parse2 (digit_char (x / 10)) (digit_char x) = Some x.
Proof.
  intros Hx. unfold parse2. rewrite !digit_val_digit_char. f_equal.
  Z.to_euclidean_division_equations. lia.
Qed.

Lemma ord2ymd_eq o :
  ord2ymd o =
  let n0 := o - 1 in
  let n400 := n0 / 146097 in
  let r400 := n0 mod 146097 in
  let n100 := r400 / 36524 in
  let r100 := r400 mod 36524 in
  let n4 := r100 / 1461 in
  let r4 := r100 mod 1461 in
  let n1 := r4 / 365 in
  let r1 := r4 mod 365 in
  let year := n400 * 400 + 1 + n100 * 100 + n4 * 4 + n1 in
  let leap := (n1 =? 3)%Z && (negb (n4 =? 24)%Z || (n100 =? 3)%Z) in
  if (n1 =? 4)%Z || (n100 =? 4)%Z then (year - 1, 12, 31)
  else (year, (month_day r1 leap).1, (month_day r1 leap).2).
Proof.
  unfold ord2ymd, month_day, DI400Y, DI100Y, DI4Y. cbv zeta.
  destruct (_ || _); [reflexivity|].
  by destruct (_ <? _)%Z.
Qed.

Ltac eqb_cases :=
  repeat match goal with
    | |- context [(?a =? ?b)%Z] => destruct (Z.eqb_spec a b)
    end.

(** The year, month and day computed from an ordinal name a day of the
    calendar, and that day has the ordinal. *)
Lemma ord2ymd_spec o :
  1 <= o ->
  let '(y, m, d) := ord2ymd o in
  1 <= y /\ 1 <= m <= 12 /\ 1 <= d <= days_in_month_of y m
  /\ ymd2ord y m d = o.
Proof.
  intros Ho. rewrite ord2ymd_eq. cbv zeta.
  pose proof (Z.div_mod (o - 1) 146097 ltac:(lia)) as E400.
  pose proof (Z.mod_pos_bound (o - 1) 146097 ltac:(lia)) as B400.
  set (n400 := (o - 1) / 146097) in *. set (r400 := (o - 1) mod 146097) in *.
  pose proof (Z.div_mod r400 36524 ltac:(lia)) as E100.
  pose proof (Z.mod_pos_bound r400 36524 ltac:(lia)) as B100.
  set (n100 := r400 / 36524) in *. set (r100 := r400 mod 36524) in *.
  pose proof (Z.div_mod r100 1461 ltac:(lia)) as E4.
  pose proof (Z.mod_pos_bound r100 1461 ltac:(lia)) as B4.
  set (n4 := r100 / 1461) in *. set (r4 := r100 mod 1461) in *.
  pose proof (Z.div_mod r4 365 ltac:(lia)) as E1.
  pose proof (Z.mod_pos_bound r4 365 ltac:(lia)) as B1.
  set (n1 := r4 / 365) in *. set (r1 := r4 mod 365) in *.
  clearbody n400 r400 n100 r100 n4 r4 n1 r1.
  assert (0 <= n400) as P400 by lia.
  assert (0 <= n100 <= 4) as P100 by lia.
  assert (0 <= n4 <= 24) as P4 by lia.
  assert (0 <= n1 <= 4) as P1 by lia.
  set (year := n400 * 400 + 1 + n100 * 100 + n4 * 4 + n1).
  destruct ((n1 =? 4)%Z || (n100 =? 4)%Z) eqn:Hedge.
  - assert (is_leap (year - 1) = true) as Hleap.
    { unfold is_leap, year. apply orb_true_iff in Hedge.
      rewrite !Z.eqb_eq in Hedge.
      eqb_cases; simpl; try reflexivity; exfalso;
        Z.to_euclidean_division_equations; lia. }
    unfold days_in_month_of, ymd2ord. rewrite Hleap.
    calendar_tables. unfold days_before_year, year.
    apply orb_true_iff in Hedge. rewrite !Z.eqb_eq in Hedge.
    split_and!; try lia.
    Z.to_euclidean_division_equations; lia.
  - apply orb_false_iff in Hedge as [Hn1 Hn100].
    apply Z.eqb_neq in Hn1, Hn100.
    set (leap := (n1 =? 3)%Z && (negb (n4 =? 24)%Z || (n100 =? 3)%Z)).
    assert (is_leap year = leap) as Hleap.
    { unfold is_leap, leap, year.
      eqb_cases; simpl; try reflexivity; exfalso;
        Z.to_euclidean_division_equations; lia. }
    pose proof (month_day_spec r1 leap) as Hmd.
    destruct (month_day r1 leap) as [m d]. simpl.
    destruct Hmd as (Hm & Hd & Hsum); [destruct leap; simpl; lia|].
    unfold days_in_month_of, ymd2ord. rewrite Hleap.
    split_and!; try lia.
    assert (days_before_year year = o - 1 - r1) as ->; [|lia].
    unfold days_before_year, year.
    Z.to_euclidean_division_equations; lia.
Qed.

Lemma parse2_digits x :
  parse2 (digit_char (x / 10)) (digit_char x) = Some (x mod 100).
Proof.
  unfold parse2. rewrite !digit_val_digit_char. f_equal.
  Z.to_euclidean_division_equations. lia.
Qed.

Lemma days_in_month_of_bound y m :
  1 <= m <= 12 -> days_in_month_of y m <= 31.
Proof.
  intros Hm. unfold days_in_month_of.
  assert (m = 1 \/ m = 2 \/ m = 3 \/ m = 4 \/ m = 5 \/ m = 6 \/ m = 7 \/ m = 8
          \/ m = 9 \/ m = 10 \/ m = 11 \/ m = 12) as Hcases by lia.
  repeat (destruct Hcases as [->|Hcases]); try subst m;
    destruct (is_leap y); calendar_tables; lia.
Qed.

Lemma days_before_month_nonneg m : 1 <= m <= 12 -> 0 <= days_before_month m.
Proof.
  intros Hm.
  assert (m = 1 \/ m = 2 \/ m = 3 \/ m = 4 \/ m = 5 \/ m = 6 \/ m = 7 \/ m = 8
          \/ m = 9 \/ m = 10 \/ m = 11 \/ m = 12) as Hcases by lia.
  repeat (destruct Hcases as [->|Hcases]); try subst m; calendar_tables; lia.
Qed.

(** Within the years 1 to 9999 the text produced for [n] epoch seconds is
    read back as [n]. *)
Lemma isoformat_utc_roundtrip n :
  MIN_TIMESTAMP <= n <= MAX_TIMESTAMP ->
  exists s, isoformat_utc n = Ok s /\ epoch_of_iso s = Some n.
Proof.
  unfold MIN_TIMESTAMP, MAX_TIMESTAMP. intros Hn. unfold isoformat_utc.
  assert ((n <? MIN_TIMESTAMP)%Z || (MAX_TIMESTAMP <? n)%Z = false) as ->.
  { apply orb_false_iff. unfold MIN_TIMESTAMP, MAX_TIMESTAMP.
    split; apply Z.ltb_ge; lia. }
  pose proof (Z.div_mod n 86400 ltac:(lia)) as Ed.
  pose proof (Z.mod_pos_bound n 86400 ltac:(lia)) as Bd.
  set (days := n / 86400) in *. set (secs := n mod 86400) in *.
  clearbody days secs.
  pose proof (ord2ymd_spec (days + EPOCH_ORDINAL)) as Hymd.
  unfold EPOCH_ORDINAL in *.
  destruct (ord2ymd (days + 719163)) as [[y m] d].
  destruct Hymd as (Hy & Hm & Hd & Hord); [lia|].
  pose proof (days_in_month_of_bound y m Hm) as Hd31.
  pose proof (days_before_month_nonneg m Hm) as Hbm.
  assert (y <= 9999) as Hy9.
  { unfold ymd2ord, days_before_year in Hord.
    assert (0 <= Z_of_bool ((2 <? m)%Z && is_leap y))
      by (destruct (_ && _); simpl; lia).
    Z.to_euclidean_division_equations; lia. }
  eexists. split; [reflexivity|].
  cbv [epoch_of_iso fmt4 fmt2 list_ascii_of_string String.append].
  repeat match goal with
    | |- context [sep ?a ?b] => change (sep a b) with true
    end.
  cbn [andb]. rewrite !parse2_digits.
  assert (100 * (y / 100 mod 100) + y mod 100 = y) as ->
      by (Z.to_euclidean_division_equations; lia).
  assert (m mod 100 = m) as -> by (apply Z.mod_small; lia).
  assert (d mod 100 = d) as -> by (apply Z.mod_small; lia).
  pose proof (Z.div_mod secs 3600 ltac:(lia)) as Eh.
  pose proof (Z.mod_pos_bound secs 3600 ltac:(lia)) as Bh.
  set (h := secs / 3600) in *. set (rest := secs mod 3600) in *.
  clearbody h rest.
  pose proof (Z.div_mod rest 60 ltac:(lia)) as Em.
  pose proof (Z.mod_pos_bound rest 60 ltac:(lia)) as Bm.
  assert (secs mod 60 = rest mod 60) as ->.
  { rewrite Eh. rewrite Z.add_comm, Z.mul_comm.
    change 3600 with (60 * 60) at 1. rewrite Z.mul_assoc.
    by rewrite Z.mod_add by lia. }
  set (mi := rest / 60) in *. set (sc := rest mod 60) in *.
  clearbody mi sc.
  assert (h mod 100 = h) as -> by (apply Z.mod_small; lia).
  assert (mi mod 100 = mi) as -> by (apply Z.mod_small; lia).
  assert (sc mod 100 = sc) as -> by (apply Z.mod_small; lia).
  assert ((1 <=? y)%Z && (1 <=? m)%Z && (m <=? 12)%Z && (1 <=? d)%Z
          && (d <=? days_in_month_of y m)%Z
          && (h <? 24)%Z && (mi <? 60)%Z && (sc <? 60)%Z = true) as ->.
  { repeat (apply andb_true_intro; split);
      first [apply Z.leb_le; lia | apply Z.ltb_lt; lia]. }
  f_equal. rewrite Hord. unfold EPOCH_ORDINAL. lia.
Qed.

(** C9. The derived-field computations never raise. For every value [ts],
    [_to_iso] returns the ISO-8601 UTC text of the epoch second [int(ts)]
    when [int(ts)] succeeds and lies in the years 1 to 9999 (the text reads
    back as that epoch second), and the absent value in every other case:
    [int(ts)] raises, or the second is out of range. For every sound record
    and usage count, [_popular_sound_heuristic] returns the pair computed
    by its body when the body returns, and (false, "error:" followed by the
    message) when the body raises, which happens exactly when the sound
    record is a true value that is not a dictionary. *)
Theorem derived_fields_never_raise (cfg : config) (ts music_obj usage : pyval) :
  match py_int ts with
  | Ok n =>
      if (MIN_TIMESTAMP <=? n)%Z && (n <=? MAX_TIMESTAMP)%Z
      then exists s, _to_iso ts = Some s
                     /\ isoformat_utc n = Ok s
                     /\ epoch_of_iso s = Some n
      else _to_iso ts = None
  | Raise _ => _to_iso ts = None
  end
  /\ match popular_sound_body (POPULAR_SOUND_MIN_USES cfg) music_obj usage with
     | Ok p => _popular_sound_heuristic cfg music_obj usage = p
     | Raise e =>
         _popular_sound_heuristic cfg music_obj usage
         = (false, "error:" ++ exn_msg e)
     end
  /\ ((exists e, popular_sound_body (POPULAR_SOUND_MIN_USES cfg) music_obj usage
                 = Raise e)
      <-> truthy music_obj = true /\ forall d, music_obj <> PDict d)
  /\ _to_iso (PInt 0) = Some "1970-01-01T00:00:00+00:00"
  /\ _to_iso (PStr "1700000000") = Some "2023-11-14T22:13:20+00:00"
  /\ _to_iso PNone = None
  /\ _to_iso (PStr "yesterday") = None
  /\ _to_iso (PInt 253402300800) = None
  /\ _popular_sound_heuristic cfg (PStr "sound") usage
     = (false, "error:'str' object has no attribute 'get'").
Proof.
  split_and!; try reflexivity.
  - unfold _to_iso, to_iso_body. destruct (py_int ts) as [n|e]; [|reflexivity].
    simpl.
    destruct ((MIN_TIMESTAMP <=? n)%Z && (n <=? MAX_TIMESTAMP)%Z) eqn:Hr.
    + apply andb_true_iff in Hr as [H1 H2].
      apply Z.leb_le in H1, H2.
      destruct (isoformat_utc_roundtrip n (conj H1 H2)) as (s & Hs & Hp).
      exists s. by rewrite Hs.
    + unfold isoformat_utc.
      assert ((n <? MIN_TIMESTAMP)%Z || (MAX_TIMESTAMP <? n)%Z = true) as ->;
        [|reflexivity].
      apply andb_false_iff in Hr as [H|H]; apply Z.leb_gt in H;
        apply orb_true_iff; [left|right]; by apply Z.ltb_lt.
  - unfold _popular_sound_heuristic.
    by destruct (popular_sound_body _ _ _).
  - unfold popular_sound_body, py_or.
    destruct music_obj as [|b|n|s|l|d]; simpl.
    + split; [by intros [e ?]|by intros [? _]].
    + destruct b; simpl.
      * split; [done|]. intros _. by eexists.
      * split; [by intros [e ?]|by intros [? _]].
    + destruct (n =? 0)%Z; simpl.
      * split; [by intros [e ?]|by intros [? _]].
      * split; [done|]. intros _. by eexists.
    + destruct (String.eqb s ""); simpl.
      * split; [by intros [e ?]|by intros [? _]].
      * split; [done|]. intros _. by eexists.
    + destruct l; simpl.
      * split; [by intros [e ?]|by intros [? _]].
      * split; [done|]. intros _. by eexists.
    + split.
      * intros [e He]. by destruct d.
      * intros [_ Hd]. by destruct (Hd d).
Qed.

(** * Further properties of the code *)

(** ** [_fetch_music_usage_count] *)

Lemma music_id_of_dict d : exists k, music_id_of (PDict d) = Ok k.
Proof.
  unfold music_id_of. simpl.
  destruct (truthy (default PNone (assoc "id" d))); [by eexists|].
  destruct (truthy (default PNone (assoc "musicId" d))); by eexists.
Qed.

Lemma lookup_try_some answer vc :
  lookup_try answer = Some vc <->
  exists md, answer = Ok md /\ video_count_of md = Ok vc
             /\ isinstance_int vc = true.
Proof.
  unfold lookup_try, try_catch. destruct answer as [md|e]; simpl.
  - destruct (video_count_of md) as [v|e] eqn:Hvc; simpl.
    + destruct (isinstance_int v) eqn:Hi; split.
      * intros Heq. injection Heq as <-. by exists md.
      * intros (md' & Ha & Hv & _). congruence.
      * done.
      * intros (md' & Ha & Hv & H). congruence.
    + split; [done|]. intros (md' & Ha & Hv & _). congruence.
  - split; [done|]. intros (md' & Ha & _). congruence.
Qed.

(** X1. For a sound record that is a dictionary, whatever the two lookups
    answer (a record, a record without a count, an exception),
    [_fetch_music_usage_count] returns, and what it returns is [None] or an
    integer; for a record that is absent or empty it returns [None]; it
    raises only for a true value that is not a dictionary. *)
Theorem fetch_music_usage_count_result (music_answer sound_answer : result pyval) :
  (forall d, exists v,
      _fetch_music_usage_count music_answer sound_answer (PDict d) = Ok v
      /\ count_or_none v)
  /\ (forall music_obj, truthy music_obj = false ->
        _fetch_music_usage_count music_answer sound_answer music_obj = Ok PNone)
  /\ (forall music_obj, truthy music_obj = true ->
        (forall d, music_obj <> PDict d) ->
        exists e,
          _fetch_music_usage_count music_answer sound_answer music_obj
          = Raise e).
Proof.
  split_and!.
  - intros d. unfold _fetch_music_usage_count.
    destruct (negb (truthy (PDict d))); [exists PNone; split; [done|by left]|].
    destruct (music_id_of_dict d) as [k ->]. simpl.
    destruct (negb (truthy k)); [exists PNone; split; [done|by left]|].
    destruct (lookup_try music_answer) as [vc|] eqn:Hm.
    { apply lookup_try_some in Hm as (_ & _ & _ & Hi).
      exists vc. split; [done|by right]. }
    destruct (lookup_try sound_answer) as [vc|] eqn:Hs.
    { apply lookup_try_some in Hs as (_ & _ & _ & Hi).
      exists vc. split; [done|by right]. }
    exists PNone. split; [done|by left].
  - intros music_obj Ht. unfold _fetch_music_usage_count. by rewrite Ht.
  - intros music_obj Ht Hd. unfold _fetch_music_usage_count. rewrite Ht. simpl.
    unfold music_id_of.
    destruct music_obj as [|b|n|s|l|d]; simpl; try by eexists.
    by destruct (Hd d).
Qed.

Lemma fetch_music_usage_count_result_witness :
  _fetch_music_usage_count (Raise (SourceError "music"))
    (Raise (SourceError "sound")) PNone = Ok PNone.
Proof.
  apply (proj1 (proj2 (fetch_music_usage_count_result
                         (Raise (SourceError "music"))
                         (Raise (SourceError "sound"))))).
  reflexivity.
Defined.

(** X2. A sound record that carries no usable identifier (none of [id],
    [musicId], [idStr] is a true value) has no usage count, whatever the
    lookups would have answered. *)
Theorem fetch_music_usage_count_no_id (music_answer sound_answer : result pyval)
    (d : list (string * pyval)) :
  truthy (default PNone (assoc "id" d)) = false ->
  truthy (default PNone (assoc "musicId" d)) = false ->
  truthy (default PNone (assoc "idStr" d)) = false ->
  _fetch_music_usage_count music_answer sound_answer (PDict d) = Ok PNone.
Proof.
  intros H1 H2 H3. unfold _fetch_music_usage_count, music_id_of.
  destruct (negb (truthy (PDict d))); [done|]. simpl.
  rewrite H1, H2. simpl. by rewrite H3.
Qed.

Lemma fetch_music_usage_count_no_id_witness :
  _fetch_music_usage_count (Ok (PDict [("videoCount", PInt 7)]))
    (Ok (PDict [("videoCount", PInt 9)]))
    (PDict [("title", PStr "song"); ("id", PStr "")])
  = Ok PNone.
Proof.
  apply fetch_music_usage_count_no_id; reflexivity.
Defined.

(** X3. For a sound record with an identifier, an integer count found by
    the music lookup is the result, whatever the sound lookup would answer;
    when the music lookup raises or finds no integer count, the result is
    the integer count of the sound lookup, and [None] when that raises or
    finds none either. *)
Theorem fetch_music_usage_count_order (music_answer sound_answer : result pyval)
    (d : list (string * pyval)) (k : pyval) :
  music_id_of (PDict d) = Ok k -> truthy k = true ->
  (forall md vc,
      music_answer = Ok md -> video_count_of md = Ok vc ->
      isinstance_int vc = true ->
      _fetch_music_usage_count music_answer sound_answer (PDict d) = Ok vc)
  /\ (lookup_try music_answer = None ->
      (forall sd vc,
          sound_answer = Ok sd -> video_count_of sd = Ok vc ->
          isinstance_int vc = true ->
          _fetch_music_usage_count music_answer sound_answer (PDict d) = Ok vc)
      /\ (lookup_try sound_answer = None ->
          _fetch_music_usage_count music_answer sound_answer (PDict d)
          = Ok PNone))
  /\ (forall e, lookup_try (Raise e) = None)
  /\ (forall md vc, video_count_of md = Ok vc -> isinstance_int vc = false ->
        lookup_try (Ok md) = None).
Proof.
  intros Hk Ht.
  assert (truthy (PDict d) = true) as Hd.
  { destruct d; [|done]. by vm_compute in Hk; injection Hk as <-. }
  assert (forall a b,
             _fetch_music_usage_count a b (PDict d)
             = match lookup_try a with
               | Some vc => Ok vc
               | None => match lookup_try b with
                         | Some vc => Ok vc
                         | None => Ok PNone
                         end
               end) as Heq.
  { intros a b. unfold _fetch_music_usage_count. rewrite Hd, Hk. simpl.
    by rewrite Ht. }
  split_and!.
  - intros md vc Ha Hv Hi. rewrite Heq.
    assert (lookup_try music_answer = Some vc) as ->; [|done].
    apply lookup_try_some. by exists md.
  - intros Hm. split.
    + intros sd vc Ha Hv Hi. rewrite Heq, Hm.
      assert (lookup_try sound_answer = Some vc) as ->; [|done].
      apply lookup_try_some. by exists sd.
    + intros Hs. by rewrite Heq, Hm, Hs.
  - done.
  - intros md vc Hv Hi. unfold lookup_try, try_catch. simpl.
    rewrite Hv. simpl. by rewrite Hi.
Qed.

Lemma fetch_music_usage_count_order_witness :
  _fetch_music_usage_count
    (Ok (PDict [("stats", PDict [("videoCount", PInt 1500)])]))
    (Raise (SourceError "sound"))
    (PDict [("id", PStr "42")])
  = Ok (PInt 1500).
Proof.
  apply (proj1 (fetch_music_usage_count_order
                  (Ok (PDict [("stats", PDict [("videoCount", PInt 1500)])]))
                  (Raise (SourceError "sound"))
                  [("id", PStr "42")] (PStr "42") eq_refl eq_refl)
         (PDict [("stats", PDict [("videoCount", PInt 1500)])]) (PInt 1500));
    reflexivity.
Defined.

(** X4. The usage count of an entity record is the [videoCount] under
    [stats] whenever that is present and not [None], a count of 0
    included; the top-level [videoCount] is used when [stats] is missing,
    is not a dictionary, or holds no [videoCount]; a record that is not a
    dictionary makes the lookup raise. *)
Theorem video_count_of_precedence (d : list (string * pyval)) :
  (forall s v,
      assoc "stats" d = Some (PDict s) -> assoc "videoCount" s = Some v ->
      v <> PNone ->
      video_count_of (PDict d) = Ok v)
  /\ (forall s,
        assoc "stats" d = Some (PDict s) ->
        default PNone (assoc "videoCount" s) = PNone ->
        video_count_of (PDict d) = Ok (top_level_count d))
  /\ (forall x,
        assoc "stats" d = Some x -> (forall s, x <> PDict s) ->
        video_count_of (PDict d) = Ok (top_level_count d))
  /\ (assoc "stats" d = None ->
      video_count_of (PDict d) = Ok (top_level_count d))
  /\ (forall md, (forall d', md <> PDict d') ->
        exists e, video_count_of md = Raise e)
  /\ video_count_of (PDict [("stats", PDict [("videoCount", PInt 0)]);
                            ("videoCount", PInt 12)])
     = Ok (PInt 0).
Proof.
  unfold video_count_of, top_level_count, py_or. simpl. split_and!.
  - intros s v Hs Hv Hne. rewrite Hs. simpl.
    destruct s as [|p s]; [done|]. simpl in *. rewrite Hv. simpl.
    by destruct v.
  - intros s Hs Hv. rewrite Hs. simpl.
    destruct s as [|p s]; [done|]. simpl in *. by rewrite Hv.
  - intros x Hs Hx. rewrite Hs. simpl.
    destruct x as [|[]|n|t|[|y l]|s]; simpl; try done.
    + by destruct (n =? 0)%Z.
    + by destruct (String.eqb t "").
    + by destruct (Hx s).
  - intros Hs. by rewrite Hs.
  - intros md Hmd. destruct md; simpl; try by eexists. by destruct (Hmd d0).
  - reflexivity.
Qed.

Lemma video_count_of_precedence_witness :
  video_count_of (PDict [("stats", PList [PInt 3]); ("videoCount", PInt 12)])
  = Ok (PInt 12).
Proof.
  apply (proj1 (proj2 (proj2 (video_count_of_precedence
                                [("stats", PList [PInt 3]);
                                 ("videoCount", PInt 12)])))
           (PList [PInt 3]) eq_refl).
  intros s. discriminate.
Defined.

(** ** The usage cache *)

Lemma key_eqb_refl k : hashable k = true -> key_eqb k k = true.
Proof.
  destruct k as [|[]|n|s|l|d]; simpl; try done; intros _.
  - apply Z.eqb_refl.
  - apply String.eqb_refl.
Qed.

Lemma key_eqb_cong k k' x :
  key_eqb k k' = true -> key_eqb k x = key_eqb k' x.
Proof.
  destruct k as [|[]|n|s|l|d], k' as [|[]|n'|s'|l'|d'],
           x as [|[]|m|t|lx|dx];
    cbv [key_eqb as_int]; intros H; try done;
    repeat match goal with
      | H : context [(?a =? ?b)%Z] |- _ => destruct (Z.eqb_spec a b)
      | |- context [(?a =? ?b)%Z] => destruct (Z.eqb_spec a b)
      | H : context [String.eqb ?a ?b] |- _ => destruct (String.eqb_spec a b)
      | |- context [String.eqb ?a ?b] => destruct (String.eqb_spec a b)
      end;
    try done; try lia; congruence.
Qed.

Lemma cache_lookup_cong k k' c :
  key_eqb k k' = true -> cache_lookup k c = cache_lookup k' c.
Proof.
  intros H. induction c as [|[x v] c IH]; simpl; [done|].
  assert (key_eqb k x = key_eqb k' x) as -> by by apply key_eqb_cong.
  by rewrite IH.
Qed.

Lemma key_eqb_sym k k' : key_eqb k k' = true -> key_eqb k' k = true.
Proof.
  intros H. rewrite <- (key_eqb_cong k k' k H). apply key_eqb_refl.
  by destruct k as [| | | |l|d], k'.
Qed.

Lemma cached_music_uses_count_cases v music_obj k st :
  match cached_music_uses_count v music_obj k st with
  | (st1, Ok c) =>
      hashable k = true
      /\ ((cache_lookup k (music_usage_cache st) = Some c /\ st1 = st)
          \/ (cache_lookup k (music_usage_cache st) = None
              /\ _fetch_music_usage_count (music_info v) (sound_info v)
                   music_obj = Ok c
              /\ st1 = set_music_usage_cache
                         ((k, c) :: music_usage_cache st) st))
  | (st1, Raise e) => st1 = st
  end.
Proof.
  unfold cached_music_uses_count.
  destruct (hashable k); simpl; [|done]. run_monad.
  destruct (cache_lookup _ _) as [x|]; [by split; [|left]|].
  destruct (_fetch_music_usage_count _ _ _) as [x|e]; simpl; [|done].
  split; [done|]. by right.
Qed.

(** X5. Once the usage count of a sound has been resolved, the value found,
    [None] for "not found" included, is what every later resolution for
    the same key returns (keys compared as Python does, so that [True] and
    1 are one key): the state is not touched and the answers of the
    lookups play no part. *)
Theorem cache_remembers (v v' : video) (music_obj music_obj' k k' : pyval)
    (st st1 : state) (c : pyval) :
  cached_music_uses_count v music_obj k st = (st1, Ok c) ->
  key_eqb k k' = true ->
  cache_lookup k (music_usage_cache st1) = Some c
  /\ cached_music_uses_count v' music_obj' k' st1 = (st1, Ok c).
Proof.
  intros Hc Hk.
  pose proof (cached_music_uses_count_cases v music_obj k st) as H.
  rewrite Hc in H. destruct H as [Hh H].
  assert (cache_lookup k (music_usage_cache st1) = Some c) as Hl.
  { destruct H as [[Hl ->]|(Hl & _ & ->)]; [done|]. simpl.
    by rewrite (key_eqb_refl k Hh). }
  split; [done|].
  assert (hashable k' = true) as Hh'.
  { destruct k' as [| | | |l|d]; try done; by destruct k as [|[]| | | |]. }
  unfold cached_music_uses_count. rewrite Hh'. simpl. run_monad.
  by rewrite <- (cache_lookup_cong k k' _ Hk), Hl.
Qed.

Lemma cache_remembers_witness :
  cached_music_uses_count (media_fails "e") (PDict [("id", PInt 1)])
    (PBool true)
    (set_music_usage_cache [(PInt 1, PNone)] initial_state)
  = (set_music_usage_cache [(PInt 1, PNone)] initial_state, Ok PNone).
Proof.
  apply (cache_remembers (sample_video "a") (media_fails "e")
           (PDict [("id", PInt 1)]) (PDict [("id", PInt 1)])
           (PInt 1) (PBool true) initial_state
           (set_music_usage_cache [(PInt 1, PNone)] initial_state) PNone).
  - reflexivity.
  - reflexivity.
Defined.

#[local] Instance cache_kept_preorder : PreOrder cache_kept.
Proof.
  split; [by intros st k c|].
  intros st1 st2 st3 H1 H2 k c H. by apply H2, H1.
Qed.

Lemma cache_kept_same st st' :
  music_usage_cache st' = music_usage_cache st -> cache_kept st st'.
Proof. intros H k c. by rewrite H. Qed.

Lemma cache_kept_emit e st : cache_kept st (emit e st).
Proof. by apply cache_kept_same. Qed.
Lemma cache_kept_errors n st : cache_kept st (set_consecutive_errors n st).
Proof. by apply cache_kept_same. Qed.
Lemma cache_kept_count n st : cache_kept st (set_downloaded_count n st).
Proof. by apply cache_kept_same. Qed.
Lemma cache_kept_seen s st : cache_kept st (set_seen_ids s st).
Proof. by apply cache_kept_same. Qed.
Lemma cache_kept_loops n st : cache_kept st (set_loops n st).
Proof. by apply cache_kept_same. Qed.
Lemma cache_kept_record r st : cache_kept st (append_record r st).
Proof. by apply cache_kept_same. Qed.
Lemma cache_kept_file p b st : cache_kept st (write_file p b st).
Proof. by apply cache_kept_same. Qed.

Lemma cache_kept_lookup v music_obj k :
  respects cache_kept (cached_music_uses_count v music_obj k).
Proof.
  intros st.
  pose proof (cached_music_uses_count_cases v music_obj k st) as H.
  destruct (cached_music_uses_count v music_obj k st) as [st1 [c|e]]; simpl.
  - destruct H as [Hh [[_ ->]|(Hl & _ & ->)]]; [reflexivity|].
    intros k0 c0 H0. simpl.
    destruct (key_eqb k0 k) eqn:Hk; [|done].
    rewrite (cache_lookup_cong k0 k _ Hk) in H0. congruence.
  - by subst st1.
Qed.

#[local] Hint Resolve cache_kept_emit cache_kept_errors cache_kept_count
  cache_kept_seen cache_kept_loops cache_kept_record cache_kept_file
  cache_kept_lookup : respects.

Lemma cache_kept_item cfg v : respects cache_kept (process_item cfg v).
Proof.
  unfold process_item, item_body, item_handler, sleep, _new_session.
  respects_auto.
Qed.

Lemma cache_kept_async_for cfg got_any vs finish :
  respects cache_kept (async_for cfg got_any vs finish).
Proof.
  revert got_any. induction vs as [|v vs IH]; intros got_any; simpl.
  - respects_auto.
  - pose proof (cache_kept_item cfg v). respects_auto.
Qed.

Lemma cache_kept_page cfg src : respects cache_kept (page_iteration cfg src).
Proof.
  unfold page_iteration, page_body, page_handler, sleep, _new_session.
  pose proof (cache_kept_async_for cfg). respects_auto.
Qed.

Lemma cache_kept_while cfg src fuel :
  respects cache_kept (while_loop cfg src fuel).
Proof.
  induction fuel as [|fuel IH]; simpl.
  - respects_auto.
  - pose proof (cache_kept_page cfg src). respects_auto.
Qed.

(** X6. The cache is written once per key: a usage count that is cached
    keeps its value through the handling of any item, through any turn of
    the loop and to the end of the loop, whatever the Content Source
    answers later. *)
Theorem cache_write_once (cfg : config) (src : source) (st : state)
    (k c : pyval) :
  cache_lookup k (music_usage_cache st) = Some c ->
  (forall v,
      cache_lookup k (music_usage_cache (process_item cfg v st).1) = Some c)
  /\ cache_lookup k (music_usage_cache (page_iteration cfg src st).1) = Some c
  /\ (forall fuel,
        cache_lookup k (music_usage_cache (while_loop cfg src fuel st).1)
        = Some c).
Proof.
  intros H. split_and!.
  - intros v. by apply (cache_kept_item cfg v st).
  - by apply (cache_kept_page cfg src st).
  - intros fuel. by apply (cache_kept_while cfg src fuel st).
Qed.

Lemma cache_write_once_witness :
  cache_lookup (PStr "m")
    (music_usage_cache
       (page_iteration small_config scenario
          (set_music_usage_cache [(PStr "m", PInt 5)] initial_state)).1)
  = Some (PInt 5).
Proof.
  apply (proj1 (proj2 (cache_write_once small_config scenario
                         (set_music_usage_cache [(PStr "m", PInt 5)]
                            initial_state)
                         (PStr "m") (PInt 5) eq_refl))).
Defined.

(** ** [_extract_hashtags], further *)

Lemma structured_tags_hash l :
  Forall (fun t => startswith_hash t = true) (structured_tags l).
Proof.
  induction l as [|[[name|]] l IH]; simpl; [done| |done].
  destruct (negb (String.eqb name "")); [|done].
  by apply Forall_cons.
Qed.

Lemma caption_tags_hash d :
  Forall (fun t => startswith_hash t = true) (caption_tags d).
Proof.
  unfold caption_tags. apply Forall_forall. intros t Ht.
  apply list_elem_of_In in Ht. by apply filter_In in Ht as [_ Ht].
Qed.

Lemma uniq_loop_Forall (P : string -> Prop) seen tags :
  Forall P tags -> Forall P (uniq_loop seen tags).
Proof.
  revert seen. induction tags as [|t tags IH]; intros seen H; simpl; [done|].
  apply Forall_cons in H as [Ht H].
  destruct (bool_decide _); [by apply IH|].
  apply Forall_cons. split; [done|by apply IH].
Qed.

Lemma extract_hashtags_hash data :
  Forall (fun t => startswith_hash t = true) (_extract_hashtags data).
Proof.
  unfold _extract_hashtags. apply uniq_loop_Forall.
  pose proof (structured_tags_hash (default [] (textExtra data))) as Hs.
  destruct (structured_tags _); [apply caption_tags_hash|done].
Qed.

Lemma extract_hashtags_distinct data :
  NoDup (lower <$> _extract_hashtags data).
Proof. unfold _extract_hashtags. apply uniq_loop_nodup. Qed.

Lemma uniq_loop_nil seen tags :
  uniq_loop seen tags = [] <-> forall t, t ∈ tags -> lower t ∈ seen.
Proof.
  revert seen. induction tags as [|t tags IH]; intros seen; simpl.
  - split; [|done]. by intros _ t ?%elem_of_nil.
  - destruct (bool_decide _) eqn:Hd.
    + apply bool_decide_eq_true in Hd. rewrite IH. split.
      * intros H t' [->|Hin]%elem_of_cons; [done|by apply H].
      * intros H t' Hin. apply H. by right.
    + apply bool_decide_eq_false in Hd. split; [done|].
      intros H. destruct Hd. apply H. by left.
Qed.

Lemma uniq_loop_fixed seen l :
  NoDup (lower <$> l) -> (forall t, t ∈ l -> lower t ∉ seen) ->
  uniq_loop seen l = l.
Proof.
  revert seen. induction l as [|t l IH]; intros seen Hn Hs; simpl; [done|].
  rewrite fmap_cons in Hn. apply NoDup_cons in Hn as [Ht Hn].
  rewrite bool_decide_eq_false_2 by (apply Hs; by left).
  f_equal. apply IH; [done|].
  intros t' Hin [Heq%elem_of_singleton|Hin']%elem_of_union.
  - apply Ht. rewrite <- Heq. by apply list_elem_of_fmap_2.
  - apply (Hs t'); [by right|done].
Qed.

(** X7. Every hashtag returned starts with '#'. The result is empty exactly
    when no annotation has a name and the caption has no token that starts
    with '#'. De-duplicating the result again leaves it as it is. When an
    annotation has a name the caption plays no part: two records with the
    same annotations give the same hashtags. *)
Theorem hashtags_shape (data : video_data) :
  Forall (fun t => startswith_hash t = true) (_extract_hashtags data)
  /\ (_extract_hashtags data = []
      <-> structured_tags (default [] (textExtra data)) = []
          /\ caption_tags (default "" (desc data)) = [])
  /\ uniq_loop ∅ (_extract_hashtags data) = _extract_hashtags data
  /\ (forall data',
        textExtra data' = textExtra data ->
        structured_tags (default [] (textExtra data)) <> [] ->
        _extract_hashtags data' = _extract_hashtags data).
Proof.
  split_and!.
  - apply extract_hashtags_hash.
  - unfold _extract_hashtags. rewrite uniq_loop_nil.
    destruct (structured_tags _) as [|t ts]; split.
    + intros H. split; [done|].
      destruct (caption_tags _) as [|t ts]; [done|].
      by destruct (not_elem_of_empty (C:=gset string) (lower t));
        apply H; left.
    + intros [_ ->] t ?%elem_of_nil. done.
    + intros H.
      by destruct (not_elem_of_empty (C:=gset string) (lower t));
        apply H; left.
    + by intros [? _].
  - apply uniq_loop_fixed; [apply extract_hashtags_distinct|].
    intros t _. apply not_elem_of_empty.
  - intros data' He Hs. unfold _extract_hashtags. rewrite He.
    by destruct (structured_tags _).
Qed.

Lemma hashtags_shape_witness :
  _extract_hashtags
    {| textExtra := Some [ {| hashtagName := Some "Tag" |} ];
       desc := Some "#one #two"; createTime := PNone; music := PNone |}
  = _extract_hashtags
      {| textExtra := Some [ {| hashtagName := Some "Tag" |} ];
         desc := Some "no tags here"; createTime := PInt 5; music := PNone |}.
Proof.
  apply (proj2 (proj2 (proj2 (hashtags_shape
           {| textExtra := Some [ {| hashtagName := Some "Tag" |} ];
              desc := Some "no tags here"; createTime := PInt 5;
              music := PNone |})))).
  - reflexivity.
  - discriminate.
Defined.

(** ** [_popular_sound_heuristic], further *)

Lemma popular_sound_table cfg d usage :
  _popular_sound_heuristic cfg (PDict d) usage
  = let original := default PNone (assoc "original" d) in
    (is_False original
     || match as_int usage with
        | Some n => (POPULAR_SOUND_MIN_USES cfg <=? n)%Z
        | None => false
        end,
     match is_False original, as_int usage with
     | true, Some _ => "non_original_sound|videoCount=" ++ format_int usage
     | true, None => "non_original_sound"
     | false, Some _ => "videoCount=" ++ format_int usage
     | false, None => "no_reason"
     end).
Proof.
  unfold _popular_sound_heuristic, popular_sound_body, py_or, isinstance_int.
  assert (py_get (if truthy (PDict d) then PDict d else PDict []) "original"
          = Ok (default PNone (assoc "original" d))) as ->
      by by destruct d.
  cbv zeta. simpl.
  destruct (is_False _); destruct (as_int usage); reflexivity.
Qed.

(** X8. For a sound record, the reason returned is one of four texts,
    decided by whether the sound is flagged non-original and whether the
    usage count is an integer: both causes joined by '|', one of them, or
    "no_reason". A true flag always comes with a reason that names its
    cause, and "no_reason" is returned exactly when the sound is not
    flagged and there is no integer count. A [bool] count is formatted as
    Python prints it. *)
Theorem reason_names_cause (cfg : config) (d : list (string * pyval))
    (usage : pyval) :
  let original := default PNone (assoc "original" d) in
  let result := _popular_sound_heuristic cfg (PDict d) usage in
  result.2
  = match is_False original, as_int usage with
    | true, Some _ => "non_original_sound|videoCount=" ++ format_int usage
    | true, None => "non_original_sound"
    | false, Some _ => "videoCount=" ++ format_int usage
    | false, None => "no_reason"
    end
  /\ (result.1 = true -> result.2 <> "no_reason")
  /\ (result.2 = "no_reason" <-> is_False original = false /\ as_int usage = None)
  /\ (_popular_sound_heuristic cfg (PDict []) (PBool true)).2 = "videoCount=True".
Proof.
  intros original result. subst result. rewrite popular_sound_table.
  cbv zeta. fold original. simpl.
  split_and!; [done| | |done].
  - destruct (is_False original), (as_int usage); simpl; try discriminate.
  - destruct (is_False original), (as_int usage); simpl; split;
      try discriminate; try done; intros [? ?]; discriminate.
Qed.

Lemma reason_names_cause_witness :
  (_popular_sound_heuristic default_config
     (PDict [("original", PBool false)]) (PInt 20)).2
  <> "no_reason".
Proof.
  apply (proj1 (proj2 (reason_names_cause default_config
                         [("original", PBool false)] (PInt 20)))).
  reflexivity.
Defined.

(** ** [_to_iso], further *)

Lemma epoch_of_iso_length s n :
  epoch_of_iso s = Some n -> String.length s = 25%nat.
Proof.
  unfold epoch_of_iso. intros H.
  assert (length (list_ascii_of_string s) = 25%nat) as Hl.
  { destruct (list_ascii_of_string s) as [|? l]; [done|].
    do 24 (destruct l as [|? l]; [done|]).
    by destruct l. }
  clear H. revert Hl. generalize 25%nat.
  induction s as [|c s IH]; intros k; simpl; [done|].
  destruct k; [done|]. intros [= H]. f_equal. by apply IH.
Qed.

Lemma to_iso_in_range n :
  MIN_TIMESTAMP <= n <= MAX_TIMESTAMP ->
  exists s, _to_iso (PInt n) = Some s /\ epoch_of_iso s = Some n.
Proof.
  intros Hn. destruct (isoformat_utc_roundtrip n Hn) as (s & Hs & Hp).
  exists s. split; [|done]. unfold _to_iso, to_iso_body. simpl. by rewrite Hs.
Qed.

(** X9. Within the years 1 to 9999 the text for an epoch second is 25
    characters long and different seconds get different texts; outside of
    these years the result is absent. *)
Theorem to_iso_distinct (n m : Z) :
  (MIN_TIMESTAMP <= n <= MAX_TIMESTAMP ->
   exists s, _to_iso (PInt n) = Some s /\ String.length s = 25%nat)
  /\ (MIN_TIMESTAMP <= n <= MAX_TIMESTAMP ->
      MIN_TIMESTAMP <= m <= MAX_TIMESTAMP ->
      _to_iso (PInt n) = _to_iso (PInt m) -> n = m)
  /\ (n < MIN_TIMESTAMP \/ MAX_TIMESTAMP < n -> _to_iso (PInt n) = None).
Proof.
  split_and!.
  - intros Hn. destruct (to_iso_in_range n Hn) as (s & Hs & Hp).
    exists s. split; [done|]. by apply epoch_of_iso_length with n.
  - intros Hn Hm Heq.
    destruct (to_iso_in_range n Hn) as (s & Hs & Hp).
    destruct (to_iso_in_range m Hm) as (s' & Hs' & Hp').
    rewrite Hs, Hs' in Heq. injection Heq as <-. congruence.
  - intros Hn. unfold _to_iso, to_iso_body, isoformat_utc. simpl.
    assert ((n <? MIN_TIMESTAMP)%Z || (MAX_TIMESTAMP <? n)%Z = true) as ->;
      [|done].
    apply orb_true_iff. destruct Hn; [left|right]; by apply Z.ltb_lt.
Qed.

Lemma to_iso_distinct_witness :
  exists s, _to_iso (PInt 1700000000) = Some s /\ String.length s = 25%nat.
Proof.
  apply (proj1 (to_iso_distinct 1700000000 0)).
  unfold MIN_TIMESTAMP, MAX_TIMESTAMP. lia.
Defined.

(** ** The rows written by the loop *)

(** Handling an item either saves it, with the row computed from its detail
    record, or leaves outputs and files as they are. *)
Lemma process_item_cases cfg v st :
  let st' := (process_item cfg v st).1 in
  (exists id data k st1 c b,
      item_fresh v st = Some id /\ info v = Ok data
      /\ music_id_of (py_or (music data) (PDict [])) = Ok k
      /\ cached_music_uses_count v (py_or (music data) (PDict [])) k
           (mark_seen id st) = (st1, Ok c)
      /\ media v = Ok b
      /\ st' = after_save cfg v (row_for cfg v id data c) b
                 (music_usage_cache st1) st)
  \/ (jsonl_rows st' = jsonl_rows st /\ csv_rows st' = csv_rows st
      /\ files st' = files st
      /\ (music_usage_cache st' = music_usage_cache st
          \/ exists id music_obj k st1 r,
               cached_music_uses_count v music_obj k (mark_seen id st)
               = (st1, r)
               /\ music_usage_cache st' = music_usage_cache st1)).
Proof.
  intros st'. subst st'.
  destruct (item_fresh v st) as [id|] eqn:Hf.
  2:{ right. rewrite (skip_seen cfg v st Hf). simpl. by split_and!; [..|left]. }
  assert (forall e, (process_item cfg v st).1
                    = (item_handler cfg v e (mark_seen id st)).1 ->
            jsonl_rows (process_item cfg v st).1 = jsonl_rows st
            /\ csv_rows (process_item cfg v st).1 = csv_rows st
            /\ files (process_item cfg v st).1 = files st
            /\ music_usage_cache (process_item cfg v st).1
               = music_usage_cache st) as Hfail.
  { intros e ->. rewrite item_handler_eq. cbv zeta.
    destruct (_ <=? _)%Z; [|done]. by destruct (item_reset v). }
  pose proof Hf as Hf'. unfold item_fresh in Hf'.
  unfold process_item, item_body in *.
  destruct (listing_id v) as [id'|] eqn:Hid; [|done].
  revert Hfail. run_monad.
  destruct (_ || _) eqn:Hs; [done|]. injection Hf' as ->.
  fold (mark_seen id st).
  destruct (info v) as [data|e] eqn:Hi.
  2:{ intros Hfail. right. destruct (Hfail e eq_refl) as (? & ? & ? & ?).
      by split_and!; [..|left]. }
  destruct (music_id_of _) as [k|e] eqn:Hk.
  2:{ intros Hfail. right. destruct (Hfail e eq_refl) as (? & ? & ? & ?).
      by split_and!; [..|left]. }
  destruct (cached_music_uses_count v (py_or (music data) (PDict [])) k
              (mark_seen id st)) as [st1 [c|e]] eqn:Hc.
  2:{ pose proof (cached_music_uses_count_cases v
                    (py_or (music data) (PDict [])) k (mark_seen id st)) as H.
      rewrite Hc in H. subst st1.
      intros Hfail. right. destruct (Hfail e eq_refl) as (? & ? & ? & ?).
      by split_and!; [..|left]. }
  intros _.
  pose proof (cached_music_uses_count_cases v (py_or (music data) (PDict []))
                k (mark_seen id st)) as Hcases.
  rewrite Hc in Hcases. destruct Hcases as [_ Hst1].
  assert (jsonl_rows st1 = jsonl_rows st /\ csv_rows st1 = csv_rows st
          /\ files st1 = files st /\ downloaded_count st1 = downloaded_count st
          /\ st1 = set_music_usage_cache (music_usage_cache st1)
                     (mark_seen id st)) as (Hj & Hcs & Hfl & Hd & Hst).
  { destruct Hst1 as [[_ ->]|(_ & _ & ->)]; simpl; split_and!; try done;
      by rewrite set_cache_same. }
  destruct (_popular_sound_heuristic _ _ _) as [popular reason] eqn:Hh.
  destruct (media v) as [b|e] eqn:Hm.
  - left. exists id, data, k, st1, c, b. split_and!; try done.
    unfold after_save, row_for. rewrite Hh. simpl.
    rewrite Hst at 1 2 3 4. simpl. reflexivity.
  - right. simpl. split_and!; try done. right.
    by exists id, (py_or (music data) (PDict [])), k, st1, (Ok c).
Qed.

(** X10. When handling an item appends a row, the row is the one computed
    from that item: its identifier is the one listed, the detail fetch and
    the media fetch succeeded, timestamp, hashtags, caption and sound
    fields are the helpers' results on the detail record, the same row is
    appended to the CSV output, and the media bytes are stored under the
    row's download path. *)
Theorem saved_row (cfg : config) (v : video) (st : state) (r : row) :
  jsonl_rows (process_item cfg v st).1 = (jsonl_rows st ++ [r])%list ->
  exists data c b,
    listing_id v = Some (video_id r) /\ info v = Ok data /\ media v = Ok b
    /\ r = row_for cfg v (video_id r) data c
    /\ csv_rows (process_item cfg v st).1 = (csv_rows st ++ [r])%list
    /\ files (process_item cfg v st).1
       = (files st ++ [(download_path r, b)])%list.
Proof.
  intros Hr.
  destruct (process_item_cases cfg v st)
    as [(id & data & k & st1 & c & b & Hf & Hi & Hk & Hc & Hm & Hst)
       |(Hj & _)].
  - rewrite Hst in Hr |- *. simpl in Hr. apply app_inj_tail in Hr as [_ <-].
    exists data, c, b. simpl. split_and!; try done.
    unfold item_fresh in Hf. destruct (listing_id v); [|done].
    destruct (_ || _); [done|]. by injection Hf as ->.
  - rewrite Hj in Hr. apply (f_equal length) in Hr.
    rewrite length_app in Hr. simpl in Hr. lia.
Qed.

Lemma saved_row_witness :
  exists data c b,
    listing_id (sample_video "a") = Some "a"
    /\ info (sample_video "a") = Ok data /\ media (sample_video "a") = Ok b
    /\ row_for small_config (sample_video "a") "a" sample_data PNone
       = row_for small_config (sample_video "a") "a" data c
    /\ csv_rows (process_item small_config (sample_video "a") initial_state).1
       = [row_for small_config (sample_video "a") "a" sample_data PNone]
    /\ files (process_item small_config (sample_video "a") initial_state).1
       = [("downloads/a.mp4", b)].
Proof.
  exact (saved_row small_config (sample_video "a") initial_state
           (row_for small_config (sample_video "a") "a" sample_data PNone)
           eq_refl).
Defined.

Lemma fetch_ok_count music_answer sound_answer music_obj c :
  _fetch_music_usage_count music_answer sound_answer music_obj = Ok c ->
  count_or_none c.
Proof.
  unfold _fetch_music_usage_count.
  destruct (negb (truthy music_obj)); [intros [= <-]; by left|].
  destruct (music_id_of music_obj) as [k|e]; simpl; [|done].
  destruct (negb (truthy k)); [intros [= <-]; by left|].
  destruct (lookup_try music_answer) as [vc|] eqn:Hm.
  { apply lookup_try_some in Hm as (_ & _ & _ & Hi).
    intros [= <-]. by right. }
  destruct (lookup_try sound_answer) as [vc|] eqn:Hs.
  { apply lookup_try_some in Hs as (_ & _ & _ & Hi).
    intros [= <-]. by right. }
  intros [= <-]. by left.
Qed.

Lemma music_id_of_ok_dict music_obj k :
  music_id_of music_obj = Ok k -> exists d, music_obj = PDict d.
Proof. destruct music_obj; try done. by eexists. Qed.

Lemma cached_lookup_counts v music_obj k st :
  cache_counts st ->
  cache_counts (cached_music_uses_count v music_obj k st).1
  /\ forall c, (cached_music_uses_count v music_obj k st).2 = Ok c ->
               count_or_none c.
Proof.
  intros Hst.
  pose proof (cached_music_uses_count_cases v music_obj k st) as H.
  destruct (cached_music_uses_count v music_obj k st) as [st1 [c|e]]; simpl.
  - destruct H as [_ [[Hl ->]|(Hl & Hfetch & ->)]].
    + split; [done|]. intros c' [= <-]. by apply (Hst k).
    + apply fetch_ok_count in Hfetch. split.
      * intros k0 c0. simpl. destruct (key_eqb k0 k).
        -- by intros [= <-].
        -- apply Hst.
      * by intros c' [= <-].
  - subst st1. split; [done|]. by intros c.
Qed.

#[local] Instance rows_ok_preorder cfg : PreOrder (rows_ok cfg).
Proof.
  split.
  - intros st Hc. split; [done|]. exists []. by rewrite app_nil_r.
  - intros st1 st2 st3 H1 H2 Hc.
    destruct (H1 Hc) as (Hc2 & n1 & Hj1 & Hr1).
    destruct (H2 Hc2) as (Hc3 & n2 & Hj2 & Hr2).
    split; [done|]. exists (n1 ++ n2)%list.
    split; [by rewrite Hj2, Hj1, app_assoc|by apply Forall_app].
Qed.

Lemma rows_ok_same cfg st st' :
  music_usage_cache st' = music_usage_cache st ->
  jsonl_rows st' = jsonl_rows st -> rows_ok cfg st st'.
Proof.
  intros Hc Hj Hst. split.
  - intros k c. rewrite Hc. apply Hst.
  - exists []. by rewrite app_nil_r.
Qed.

Lemma row_for_ok cfg v id data k c :
  id <> "" -> music_id_of (py_or (music data) (PDict [])) = Ok k ->
  count_or_none c -> row_ok cfg (row_for cfg v id data c).
Proof.
  intros Hid Hk Hc. split; simpl; try done.
  - destruct (music_id_of_ok_dict _ _ Hk) as [d ->]. exists d.
    by destruct (_popular_sound_heuristic _ _ _).
  - apply extract_hashtags_hash.
  - apply extract_hashtags_distinct.
Qed.

Lemma rows_ok_item cfg v : respects (rows_ok cfg) (process_item cfg v).
Proof.
  intros st Hst.
  assert (cache_counts (mark_seen (default "" (listing_id v)) st)) as Hms
      by done.
  destruct (process_item_cases cfg v st)
    as [(id & data & k & st1 & c & b & Hf & Hi & Hk & Hc & Hm & ->)
       |(Hj & _ & _ & [Hcache|(id & mo & k & st1 & r & Hc & Hcache)])].
  - assert (cache_counts (mark_seen id st)) as Hms' by done.
    destruct (cached_lookup_counts v (py_or (music data) (PDict [])) k
                (mark_seen id st) Hms') as [Hc1 Hc2].
    rewrite Hc in Hc1, Hc2. simpl in *. split; [done|].
    exists [row_for cfg v id data c]. split; [done|].
    apply Forall_singleton. apply row_for_ok with k; [|done|by apply Hc2].
    unfold item_fresh in Hf. destruct (listing_id v) as [id'|]; [|done].
    destruct (String.eqb_spec id' ""); [done|]. simpl in Hf.
    destruct (bool_decide _); [done|]. by injection Hf as <-.
  - by apply (rows_ok_same cfg st).
  - assert (cache_counts (mark_seen id st)) as Hms' by done.
    destruct (cached_lookup_counts v mo k (mark_seen id st) Hms') as [Hc1 _].
    rewrite Hc in Hc1. simpl in Hc1. split.
    + intros k0 c0. rewrite Hcache. apply Hc1.
    + exists []. by rewrite app_nil_r.
Qed.

Lemma rows_ok_emit cfg e st : rows_ok cfg st (emit e st).
Proof. by apply rows_ok_same. Qed.
Lemma rows_ok_errors cfg n st : rows_ok cfg st (set_consecutive_errors n st).
Proof. by apply rows_ok_same. Qed.
Lemma rows_ok_loops cfg n st : rows_ok cfg st (set_loops n st).
Proof. by apply rows_ok_same. Qed.

#[local] Hint Resolve rows_ok_emit rows_ok_errors rows_ok_loops rows_ok_item
  : respects.

Lemma rows_ok_async_for cfg got_any vs finish :
  respects (rows_ok cfg) (async_for cfg got_any vs finish).
Proof.
  revert got_any. induction vs as [|v vs IH]; intros got_any; simpl;
    respects_auto.
Qed.

Lemma rows_ok_page cfg src : respects (rows_ok cfg) (page_iteration cfg src).
Proof.
  unfold page_iteration, page_body, page_handler, sleep, _new_session.
  pose proof (rows_ok_async_for cfg). respects_auto.
Qed.

Lemma rows_ok_while cfg src fuel :
  respects (rows_ok cfg) (while_loop cfg src fuel).
Proof.
  induction fuel as [|fuel IH]; simpl.
  - respects_auto.
  - pose proof (rows_ok_page cfg src). respects_auto.
Qed.

Lemma rows_ok_run cfg src :
  respects (rows_ok cfg) (trending_videos_body cfg src).
Proof.
  unfold trending_videos_body, _new_session.
  pose proof (rows_ok_while cfg src). respects_auto.
Qed.

(** X11. Every row that a run writes is well formed, whatever the Content
    Source serves: its identifier is not empty, its download path is the
    download directory joined with the identifier and ".mp4", its watch URL
    is the one built from its username and identifier (absent without a
    username), its usage count is [None] or an integer, its sound flag and
    reason are those of the heuristic for that count, and its hashtags
    start with '#' and are distinct up to case. *)
Theorem rows_well_formed (cfg : config) (src : source) :
  Forall (row_ok cfg) (jsonl_rows (trending_videos cfg src).1)
  /\ Forall (row_ok cfg) (csv_rows (trending_videos cfg src).1).
Proof.
  assert (cache_counts initial_state) as H0 by by intros k c.
  destruct (rows_ok_run cfg src initial_state H0) as (_ & new & Hj & Hnew).
  destruct (run_progress cfg src) as [[_ (new' & Hj' & Hc' & _) _ _] _].
  fold (trending_videos cfg src) in Hj. simpl in Hj, Hj', Hc'.
  rewrite Hj. split; [done|]. rewrite Hc', <- Hj', Hj. done.
Qed.

(** ** Outputs and files *)

#[local] Instance outputs_in_step_preorder : PreOrder outputs_in_step.
Proof.
  split.
  - intros st. exists [], []. by rewrite !app_nil_r.
  - intros st1 st2 st3 (n1 & f1 & Hj1 & Hc1 & Hf1 & Hp1)
                       (n2 & f2 & Hj2 & Hc2 & Hf2 & Hp2).
    exists (n1 ++ n2)%list, (f1 ++ f2)%list. split_and!.
    + by rewrite Hj2, Hj1, app_assoc.
    + by rewrite Hc2, Hc1, app_assoc.
    + by rewrite Hf2, Hf1, app_assoc.
    + by rewrite !fmap_app, Hp1, Hp2.
Qed.

Lemma outputs_same st st' :
  jsonl_rows st' = jsonl_rows st -> csv_rows st' = csv_rows st ->
  files st' = files st -> outputs_in_step st st'.
Proof. intros Hj Hc Hf. exists [], []. by rewrite !app_nil_r. Qed.

Lemma outputs_emit e st : outputs_in_step st (emit e st).
Proof. by apply outputs_same. Qed.
Lemma outputs_errors n st : outputs_in_step st (set_consecutive_errors n st).
Proof. by apply outputs_same. Qed.
Lemma outputs_loops n st : outputs_in_step st (set_loops n st).
Proof. by apply outputs_same. Qed.

Lemma outputs_item cfg v : respects outputs_in_step (process_item cfg v).
Proof.
  intros st.
  destruct (process_item_cases cfg v st)
    as [(id & data & k & st1 & c & b & _ & _ & _ & _ & _ & ->)
       |(Hj & Hc & Hf & _)].
  - set (r := row_for cfg v id data c).
    by exists [r], [(download_path r, b)].
  - by apply outputs_same.
Qed.

#[local] Hint Resolve outputs_emit outputs_errors outputs_loops outputs_item
  : respects.






(** ** Page requests *)

Lemma page_requests_app tr1 tr2 :
  page_requests (tr1 ++ tr2) = (page_requests tr1 ++ page_requests tr2)%list.
Proof.
  induction tr1 as [|[] tr1 IH]; simpl; try done. by rewrite IH.
Qed.

#[local] Instance no_request_preorder : PreOrder no_request.
Proof.
  split; [by intros st|].
  intros st1 st2 st3 [H1 L1] [H2 L2]. split; congruence.
Qed.

Lemma no_request_emit e st :
  is_page_event e = false -> no_request st (emit e st).
Proof.
  intros He. split; [|done]. simpl. rewrite page_requests_app.
  destruct e; try done; simpl; by rewrite app_nil_r.
Qed.

Lemma no_request_errors n st : no_request st (set_consecutive_errors n st).
Proof. done. Qed.
Lemma no_request_count n st : no_request st (set_downloaded_count n st).
Proof. done. Qed.
Lemma no_request_seen s st : no_request st (set_seen_ids s st).
Proof. done. Qed.
Lemma no_request_cache c st : no_request st (set_music_usage_cache c st).
Proof. done. Qed.
Lemma no_request_record r st : no_request st (append_record r st).
Proof. done. Qed.
Lemma no_request_file p b st : no_request st (write_file p b st).
Proof. done. Qed.

#[local] Hint Resolve no_request_errors no_request_count no_request_seen
  no_request_cache no_request_record no_request_file : respects.
#[local] Hint Extern 1 (no_request _ (emit _ _)) =>
  apply no_request_emit; reflexivity : respects.

Lemma no_request_item cfg v : respects no_request (process_item cfg v).
Proof.
  unfold process_item, item_body, item_handler, cached_music_uses_count,
    sleep, _new_session.
  respects_auto.
Qed.

Lemma no_request_async_for cfg got_any vs finish :
  respects no_request (async_for cfg got_any vs finish).
Proof.
  revert got_any. induction vs as [|v vs IH]; intros got_any; simpl.
  - respects_auto.
  - pose proof (no_request_item cfg v). respects_auto.
Qed.

Lemma no_request_page_body cfg p : respects no_request (page_body cfg p).
Proof.
  unfold page_body, sleep. pose proof (no_request_async_for cfg).
  respects_auto.
Qed.

Lemma no_request_page_handler cfg p e :
  respects no_request (page_handler cfg p e).
Proof. unfold page_handler, sleep, _new_session. respects_auto. Qed.

(** One turn of the loop makes exactly one request. *)
Lemma page_iteration_request cfg src st :
  let st' := (page_iteration cfg src st).1 in
  let need := COUNT cfg - downloaded_count st in
  page_requests (trace st')
  = (page_requests (trace st)
     ++ [(loops st + 1, need, Z.min (PAGE_SIZE cfg) need)])%list
  /\ loops st' = loops st + 1.
Proof.
  intros st' need. subst st'. rewrite page_iteration_eq. cbv zeta.
  match goal with
  | |- context [try_except ?m ?h ?s] =>
      pose proof (respects_try_except no_request m h
                    (no_request_page_body cfg _)
                    (no_request_page_handler cfg _) s) as [Hr Hl]
  end.
  rewrite Hr, Hl. simpl. rewrite page_requests_app. done.
Qed.

Lemma while_requests cfg src fuel st :
  0 <= downloaded_count st ->
  let st' := (while_loop cfg src fuel st).1 in
  exists reqs,
    page_requests (trace st') = (page_requests (trace st) ++ reqs)%list
    /\ loops st' = loops st + Z.of_nat (length reqs)
    /\ Z.of_nat (length reqs) <= Z.max 0 (MAX_LOOPS cfg - loops st)
    /\ reqs.*1.*1 = seqZ (loops st + 1) (Z.of_nat (length reqs))
    /\ Forall (request_ok cfg) reqs
    /\ 0 <= downloaded_count st'.
Proof.
  revert st. induction fuel as [|fuel IH]; intros st Hst; simpl; run_monad.
  - exists []. destruct (loop_condition cfg st); simpl;
      rewrite app_nil_r; split_and!; try done; lia.
  - destruct (loop_condition cfg st) eqn:Hc.
    2:{ exists []. simpl. rewrite app_nil_r. split_and!; try done; lia. }
    unfold loop_condition in Hc. apply andb_true_iff in Hc as [Hc Hl].
    apply Z.ltb_lt in Hc, Hl.
    destruct (page_iteration_request cfg src st) as [Hreq Hloops].
    destruct (respects_page_iteration cfg src st)
      as [[_ (new & _ & _ & Hd & _) _ _] _].
    set (q := (loops st + 1, COUNT cfg - downloaded_count st,
               Z.min (PAGE_SIZE cfg) (COUNT cfg - downloaded_count st))) in *.
    assert (request_ok cfg q) as Hq by (unfold request_ok, q; simpl; lia).
    destruct (page_iteration cfg src st) as [st1 [[]|e]]; simpl in *.
    + destruct (IH st1 ltac:(lia)) as (reqs & Hr & Hlo & Hlen & Hnum & Hok & H0).
      exists (q :: reqs). split_and!.
      * rewrite Hr, Hreq, <- app_assoc. done.
      * rewrite Hlo, Hloops. simpl length. lia.
      * simpl length. lia.
      * rewrite !fmap_cons, Hnum. simpl length.
        rewrite (seqZ_cons (loops st + 1)) by lia. rewrite Hloops.
        f_equal. f_equal; lia.
      * by apply Forall_cons.
      * done.
    + exists [q]. simpl length. split_and!; try done; try lia.
      by apply Forall_singleton.
Qed.

Lemma run_shape cfg src :
  (exists e, first_session src = Raise e
             /\ trending_videos cfg src
                = (emit EvNewSession initial_state, Raise e))
  \/ (first_session src = Ok tt
      /\ exists st r,
           while_loop cfg src (Z.to_nat (MAX_LOOPS cfg))
             (emit EvNewSession initial_state) = (st, r)
           /\ ((r = Ok tt
                /\ trending_videos cfg src
                   = (emit (EvDone (downloaded_count st) (COUNT cfg)) st,
                      Ok tt))
               \/ (exists e, r = Raise e
                             /\ trending_videos cfg src = (st, Raise e)))).
Proof.
  destruct (first_session src) as [[]|e] eqn:Hs.
  - right. split; [done|]. rewrite (trending_videos_eq cfg src Hs). cbv zeta.
    destruct (while_loop _ _ _ _) as [st [[]|e]]; exists st; eexists;
      (split; [done|]); [left|right]; [done|by exists e].
  - left. exists e. split; [done|].
    unfold trending_videos, trending_videos_body. run_monad. by rewrite Hs.
Qed.

(** X13. The page requests of a run are numbered 1, 2, 3, ... without a
    gap, there are as many as [loops] says at the end and never more than
    [MAX_LOOPS]; each one is made while at least one item is still needed,
    and asks for the smaller of [PAGE_SIZE] and the number still needed. *)
Theorem page_requests_of_run (cfg : config) (src : source) :
  let final := (trending_videos cfg src).1 in
  let reqs := page_requests (trace final) in
  loops final = Z.of_nat (length reqs)
  /\ Z.of_nat (length reqs) <= Z.max 0 (MAX_LOOPS cfg)
  /\ reqs.*1.*1 = seqZ 1 (Z.of_nat (length reqs))
  /\ Forall (request_ok cfg) reqs.
Proof.
  intros final reqs. subst reqs final.
  destruct (run_shape cfg src) as [(e & _ & ->)|(_ & st & r & Hw & Hrun)].
  - simpl. split_and!; try done. lia.
  - pose proof (while_requests cfg src (Z.to_nat (MAX_LOOPS cfg))
                  (emit EvNewSession initial_state) ltac:(simpl; lia)) as H.
    rewrite Hw in H. simpl in H.
    destruct H as (reqs & Hr & Hl & Hlen & Hnum & Hok & _).
    assert (page_requests (trace (trending_videos cfg src).1) = reqs
            /\ loops (trending_videos cfg src).1 = loops st) as [-> ->].
    { destruct Hrun as [[_ ->]|(e & _ & ->)]; simpl; [|done].
      rewrite page_requests_app, Hr. simpl. by rewrite app_nil_r. }
    rewrite Z.sub_0_r in Hlen. split_and!; first [done|lia].
Qed.

(** X14. A run that returns, with a target and a ceiling that are not
    negative, ends with exactly [COUNT] items saved, or else with fewer
    after exactly [MAX_LOOPS] page requests. *)
Theorem run_ends_exactly (cfg : config) (src : source) :
  0 <= COUNT cfg -> 0 <= MAX_LOOPS cfg ->
  (trending_videos cfg src).2 = Ok tt ->
  let final := (trending_videos cfg src).1 in
  downloaded_count final = COUNT cfg
  \/ (downloaded_count final < COUNT cfg /\ loops final = MAX_LOOPS cfg).
Proof.
  intros Hc Hm Hok final. subst final.
  destruct (run_progress cfg src) as [_ Hw].
  specialize (Hw Hc).
  destruct (run_shape cfg src) as [(e & _ & Hrun)|(_ & st & r & Hwl & Hrun)].
  { by rewrite Hrun in Hok. }
  destruct Hrun as [[-> Hrun]|(e & _ & Hrun)]; [|by rewrite Hrun in Hok].
  rewrite Hrun in Hw |- *. simpl in *.
  pose proof (while_loop_exit cfg src (Z.to_nat (MAX_LOOPS cfg))
                (emit EvNewSession initial_state) ltac:(simpl; lia)) as Hexit.
  pose proof (while_requests cfg src (Z.to_nat (MAX_LOOPS cfg))
                (emit EvNewSession initial_state) ltac:(simpl; lia)) as Hreq.
  rewrite Hwl in Hexit, Hreq. simpl in Hexit, Hreq.
  destruct Hreq as (reqs & _ & Hl & Hlen & _).
  unfold loop_condition in Hexit.
  apply andb_false_iff in Hexit as [H|H]; apply Z.ltb_ge in H; lia.
Qed.

Lemma run_ends_exactly_witness :
  downloaded_count (trending_videos small_config scenario).1
  = COUNT small_config
  \/ (downloaded_count (trending_videos small_config scenario).1
      < COUNT small_config
      /\ loops (trending_videos small_config scenario).1
         = MAX_LOOPS small_config).
Proof.
  apply (run_ends_exactly small_config scenario).
  - vm_compute. discriminate.
  - vm_compute. discriminate.
  - reflexivity.
Defined.



(** ** The error counter *)

Lemma counts_errors_item cfg v : counts_errors cfg 1 (process_item cfg v).
Proof.
  intros st [H0 H1]. unfold errors_in_range, errors_limit in *.
  destruct (process_item_outcome cfg v st)
    as [Hf|r b c Hf Hm|id e c Hf Hm|id e Hf]; simpl; try lia.
  rewrite item_handler_eq. cbv zeta. simpl.
  destruct (Z.leb_spec (RESET_SESSION_AFTER_ERRORS cfg)
              (consecutive_errors st + 1)).
  - destruct (item_reset v) as [[]|e']; simpl; lia.
  - simpl. lia.
Qed.

Lemma counts_errors_async_for cfg got_any vs finish :
  counts_errors cfg 1 (async_for cfg got_any vs finish).
Proof.
  revert got_any. induction vs as [|v vs IH]; intros got_any st Hst; simpl.
  - run_monad. destruct finish as [[]|e]; simpl; [done|].
    unfold errors_in_range in Hst. lia.
  - run_monad. destruct (_ <=? _)%Z; [done|].
    pose proof (counts_errors_item cfg v st Hst) as Hi.
    destruct (process_item cfg v st) as [st1 [[]|e]]; simpl in *; [|done].
    by apply IH.
Qed.

Lemma counts_errors_page_body cfg p : counts_errors cfg 1 (page_body cfg p).
Proof.
  intros st Hst. unfold page_body. run_monad.
  pose proof (counts_errors_async_for cfg false (items p) (page_end p) st Hst)
    as Ha.
  destruct (async_for _ _ _ _ _) as [st1 [got|e]]; simpl in *; [|done].
  destruct got; simpl; [done|]. unfold errors_in_range in Ha. lia.
Qed.

Lemma counts_errors_page cfg src : counts_errors cfg 2 (page_iteration cfg src).
Proof.
  intros st Hst. rewrite page_iteration_eq. cbv zeta. unfold try_except.
  match goal with
  | |- context [page_body cfg ?p ?s] =>
      pose proof (counts_errors_page_body cfg p s Hst) as Hb;
      destruct (page_body cfg p s) as [st1 [[]|e]]; simpl in *; [done|]
  end.
  rewrite page_handler_eq. cbv zeta.
  unfold errors_in_range, errors_limit in *.
  destruct (Z.leb_spec (RESET_SESSION_AFTER_ERRORS cfg)
              (consecutive_errors st1 + 1)).
  - destruct (page_reset _) as [[]|e']; simpl; lia.
  - simpl. lia.
Qed.

Lemma counts_errors_while cfg src fuel :
  counts_errors cfg 2 (while_loop cfg src fuel).
Proof.
  induction fuel as [|fuel IH]; intros st Hst; simpl; run_monad.
  - by destruct (loop_condition cfg st).
  - destruct (loop_condition cfg st); [|done].
    pose proof (counts_errors_page cfg src st Hst) as Hp.
    destruct (page_iteration cfg src st) as [st1 [[]|e]]; simpl in *; [|done].
    by apply IH.
Qed.

(** X16. Between two turns of the loop [consecutive_errors] lies between 0
    and one less than [RESET_SESSION_AFTER_ERRORS] (0 when the threshold is
    not above 1): this holds after every item whose handling returns, after
    every turn that returns and at the end of a run that returns. When an
    exception leaves a turn or the run, the counter is at most two above
    that range. *)
Theorem error_counter_bounded (cfg : config) (src : source) :
  (forall st v, errors_in_range cfg st ->
      (process_item cfg v st).2 = Ok tt ->
      errors_in_range cfg (process_item cfg v st).1)
  /\ (forall st, errors_in_range cfg st ->
        ((page_iteration cfg src st).2 = Ok tt ->
         errors_in_range cfg (page_iteration cfg src st).1)
        /\ 0 <= consecutive_errors (page_iteration cfg src st).1
           <= errors_limit cfg + 2)
  /\ ((trending_videos cfg src).2 = Ok tt ->
      errors_in_range cfg (trending_videos cfg src).1)
  /\ 0 <= consecutive_errors (trending_videos cfg src).1
     <= errors_limit cfg + 2.
Proof.
  assert (errors_in_range cfg (emit EvNewSession initial_state)) as H0.
  { unfold errors_in_range, errors_limit. simpl. lia. }
  assert (forall A (m : M A) slack st, counts_errors cfg slack m ->
            0 <= slack -> errors_in_range cfg st ->
            0 <= consecutive_errors (m st).1 <= errors_limit cfg + slack)
    as Hany.
  { intros A m slack st Hm Hs Hst. specialize (Hm st Hst).
    unfold errors_in_range in *. destruct (m st).2; lia. }
  split; [|split; [|split]].
  - intros st v Hst Hok. pose proof (counts_errors_item cfg v st Hst) as H.
    by rewrite Hok in H.
  - intros st Hst. split.
    + intros Hok. pose proof (counts_errors_page cfg src st Hst) as H.
      by rewrite Hok in H.
    + by apply (Hany _ (page_iteration cfg src) 2 st (counts_errors_page cfg src)).
  - intros Hok.
    destruct (run_shape cfg src) as [(e & _ & Hr)|(_ & st & r & Hw & Hr)];
      [by rewrite Hr in Hok|].
    destruct Hr as [[-> Hr]|(e & _ & Hr)]; [|by rewrite Hr in Hok].
    rewrite Hr. simpl.
    pose proof (counts_errors_while cfg src (Z.to_nat (MAX_LOOPS cfg)) _ H0)
      as H.
    by rewrite Hw in H.
  - destruct (run_shape cfg src) as [(e & _ & Hr)|(_ & st & r & Hw & Hr)].
    { rewrite Hr. simpl. unfold errors_limit. lia. }
    pose proof (Hany _ (while_loop cfg src (Z.to_nat (MAX_LOOPS cfg))) 2 _
                  (counts_errors_while cfg src (Z.to_nat (MAX_LOOPS cfg)))
                  ltac:(lia) H0) as H.
    rewrite Hw in H. simpl in H.
    destruct Hr as [[_ ->]|(e & _ & ->)]; simpl; exact H.
Qed.

Lemma error_counter_bounded_witness :
  errors_in_range small_config
    (process_item small_config (detail_fails "c") initial_state).1.
Proof.
  apply (proj1 (error_counter_bounded small_config scenario)
           initial_state (detail_fails "c")).
  - unfold errors_in_range, errors_limit. simpl. lia.
  - reflexivity.
Defined.

(** ** Media files *)









(** ** The hashtags cell of the CSV output *)









